(** * Polygon overlay of two feature collections (geopandas/tools.py)

    A shallow embedding of [_extract_rings] and [overlay] and the proofs of
    the properties their specification states.

    The geometry kernel (shapely) and the alignment of a list of rows into a
    frame (the pandas constructor) are collaborators of the program, not part
    of it: they are the fields of the class [Collaborators], and every
    theorem holds for every instance.  The label-level behaviour of the
    pandas records the program manipulates (lookup by label, [concat],
    [drop], item assignment, [reset_index]) is written out on association
    lists, because the program depends on it label by label. *)

From stdpp Require Import base list strings gmap.
From Stdlib Require Import ZArith Lia.

#[local] Set Warnings "-clear-no-such-hyp".

Local Open Scope string_scope.
Local Open Scope list_scope.

(** ** Exceptions and fallible computations *)

(** The Python exceptions the program can end with.  An exception raised
    inside a collaborator is kept apart from the built-in classes the program
    raises or catches by name; its payload is the collaborator's own. *)
Inductive exn : Type :=
  | ValueError (msg : string)
  | TypeError (msg : string)
  | AttributeError (name : string)
  | KeyError (key : string)
  | KernelError (descr : string).

Inductive result (A : Type) : Type :=
  | Ok (a : A)
  | Raise (e : exn).

Arguments Ok {A} a.
Arguments Raise {A} e.

Definition bind {A B : Type} (m : result A) (k : A -> result B) : result B :=
  match m with
  | Ok a => k a
  | Raise e => Raise e
  end.

Notation "x <- m ;; k" := (bind m (fun x => k))
  (at level 100, m at next level, right associativity, only parsing).

(** [except ValueError]: the classes the handler of line 129 catches. *)
Definition is_ValueError (e : exn) : bool :=
  match e with
  | ValueError _ => true
  | _ => false
  end.

(** A collaborator that fails reports a description of its own. *)
Definition lift_kernel {A : Type} (r : string + A) : result A :=
  match r with
  | inl descr => Raise (KernelError descr)
  | inr a => Ok a
  end.

(** ** Geometries *)

Section Geometry.
Variable R : Type.   (* linear rings *)

(** A shapely [Polygon]: its shell and its holes. *)
Record polygon : Type := mkPolygon {
  exterior : R;
  interiors : list R
}.

Inductive other_kind : Type :=
  | Point | LineString | LinearRing | MultiPoint | MultiLineString
  | GeometryCollection.

Inductive Geometry : Type :=
  | Polygon (p : polygon)
  | MultiPolygon (geoms : list polygon)
  | OtherGeometry (k : other_kind).

Definition kind_name (k : other_kind) : string :=
  match k with
  | Point => "Point"
  | LineString => "LineString"
  | LinearRing => "LinearRing"
  | MultiPoint => "MultiPoint"
  | MultiLineString => "MultiLineString"
  | GeometryCollection => "GeometryCollection"
  end.

(** [geom.type] *)
Definition geom_type (g : Geometry) : string :=
  match g with
  | Polygon _ => "Polygon"
  | MultiPolygon _ => "MultiPolygon"
  | OtherGeometry k => kind_name k
  end.

(** [hasattr(geom, 'geoms')]: the multi-part classes have the attribute. *)
Definition has_geoms (g : Geometry) : bool :=
  match g with
  | Polygon _ => false
  | MultiPolygon _ => true
  | OtherGeometry (MultiPoint | MultiLineString | GeometryCollection) => true
  | OtherGeometry _ => false
  end.

(** ** Cells, rows and frames *)

Inductive Value : Type :=
  | VNone
  | VGeom (g : Geometry)
  | VInt (z : Z)
  | VStr (s : string).

(** A pandas [Series]: labelled values, in order, labels not necessarily
    distinct. *)
Definition Series : Type := list (string * Value).

Definition labels (s : Series) : list string := map fst s.

(** All the values stored under [label], in order. *)
Definition Series_get (s : Series) (label : string) : list Value :=
  map snd (List.filter (fun kv => String.eqb (fst kv) label) s).

(** [pd.Series(dict.fromkeys(cols, None))]: one [None] per distinct
    column name. *)
Fixpoint fromkeys (cols : list string) (seen : list string) : Series :=
  match cols with
  | [] => []
  | c :: cols' =>
      if bool_decide (c ∈ seen) then fromkeys cols' seen
      else (c, VNone) :: fromkeys cols' (c :: seen)
  end.

(** [pd.concat([prop1, prop2])] *)
Definition concat (prop1 prop2 : Series) : Series := prop1 ++ prop2.

Definition drop_msg : string := "labels not contained in axis".

(** [s.drop(label, inplace=True)]: every entry under [label] goes; a label
    that is not there is a [ValueError]. *)
Definition Series_drop (label : string) (s : Series) : result Series :=
  if bool_decide (label ∈ labels s)
  then Ok (List.filter (fun kv => negb (String.eqb (fst kv) label)) s)
  else Raise (ValueError drop_msg).

(** [s[label] = v]: overwrite where the label is, append where it is not. *)
Definition Series_setitem (label : string) (v : Value) (s : Series) : Series :=
  if bool_decide (label ∈ labels s)
  then map (fun kv => if String.eqb (fst kv) label then (label, v) else kv) s
  else s ++ [(label, v)].

(** A (Geo)DataFrame as the program sees it: the column names, the rows
    [iterrows()] yields (index label and row), and the name of the
    designated geometry column. *)
Record GeoDataFrame : Type := mkGeoDataFrame {
  columns : list string;
  iterrows : list (Value * Series);
  _geometry_column_name : string
}.
End Geometry.

Arguments exterior {R} p.
Arguments interiors {R} p.
Arguments mkPolygon {R} exterior interiors.
Arguments Polygon {R} p.
Arguments MultiPolygon {R} geoms.
Arguments OtherGeometry {R} k.
Arguments geom_type {R} g.
Arguments has_geoms {R} g.
Arguments VNone {R}.
Arguments VGeom {R} g.
Arguments VInt {R} z.
Arguments VStr {R} s.
Arguments labels {R} s.
Arguments Series_get {R} s label.
Arguments fromkeys {R} cols seen.
Arguments concat {R} prop1 prop2.
Arguments Series_drop {R} label s.
Arguments Series_setitem {R} label v s.
Arguments columns {R} g.
Arguments iterrows {R} g.
Arguments _geometry_column_name {R} g.
Arguments mkGeoDataFrame {R} columns iterrows _geometry_column_name.

(** ** The collaborators *)

(** What the program takes from shapely and from the frame constructor:
    the validity test, the zero buffer (which returns a geometry of
    whatever type the kernel finds, not necessarily a polygon), the two
    unions (which may fail), polygonization, representative point and the
    containment test.  How pandas aligns a list of rows into a frame is
    left open. *)
Class Collaborators : Type := {
  Ring : Type;
  PointT : Type;
  Network : Type;
  is_valid : polygon Ring -> bool;
  buffer0 : polygon Ring -> Geometry Ring;                     (* poly.buffer(0) *)
  unary_union : list (list Ring) -> string + Network;          (* unary_union([a, b]) *)
  binary_union : list Ring -> list Ring -> string + Network;   (* a.union(b) *)
  polygonize : Network -> list (polygon Ring);
  representative_point : polygon Ring -> PointT;
  intersects : PointT -> Geometry Ring -> bool;                (* cent.intersects(g) *)
  GeoDataFrame_of : list (Series Ring) -> string + GeoDataFrame Ring
}.

(** A store of geometry objects, by reference. *)
Abbreviation store := (gmap positive (Geometry Ring)).

Section Program.
Context {K : Collaborators}.

(** ** [_extract_rings] *)

Definition poly_msg : string :=
  "overlay only takes GeoDataFrames with (multi)polygon geometries".

(** The geometry a row holds under the label [geometry]; [missing] is what
    the access raises when the label is not there ([feat.geometry] and
    [cand['geometry']] differ in that).  A cell that is no geometry, or a
    label held twice, fails at the use that follows the access. *)
Definition geometry_of (feat : Series Ring) (missing : exn) : result (Geometry Ring) :=
  match Series_get feat "geometry" with
  | [] => Raise missing
  | [VGeom g] => Ok g
  | _ => Raise (AttributeError "type")
  end.

(** [poly.exterior] and [poly.interiors]: a [Polygon] has them, the other
    geometries do not. *)
Definition get_exterior (g : Geometry Ring) : result Ring :=
  match g with
  | Polygon p => Ok (exterior p)
  | _ => Raise (AttributeError "exterior")
  end.

Definition get_interiors (g : Geometry Ring) : result (list Ring) :=
  match g with
  | Polygon p => Ok (interiors p)
  | _ => Raise (AttributeError "interiors")
  end.

(** Lines 28-32 and 34-38: when the polygon is invalid the name is bound to
    what the zero buffer returns; then the shell and the holes of what the
    name holds are read. *)
Definition append_rings (rings : list Ring) (poly : polygon Ring) : result (list Ring) :=
  let poly := if negb (is_valid poly) then buffer0 poly else Polygon poly in
  ext <- get_exterior poly ;;
  ints <- get_interiors poly ;;
  Ok ((rings ++ [ext]) ++ ints).

(** Lines 27-32: the loop over the parts of a multi-polygon. *)
Fixpoint append_all (rings : list Ring) (geoms : list (polygon Ring))
  : result (list Ring) :=
  match geoms with
  | [] => Ok rings
  | poly :: geoms' =>
      rings <- append_rings rings poly ;;
      append_all rings geoms'
  end.

(** Lines 23-38, for one feature. *)
Definition extract_feature (geom : Geometry Ring) (rings : list Ring) : result (list Ring) :=
  if negb (bool_decide (geom_type geom ∈ ["Polygon"; "MultiPolygon"]))
  then Raise (TypeError poly_msg)
  else if has_geoms geom
  then match geom with
       | MultiPolygon geoms => append_all rings geoms
       | _ => Raise (AttributeError "geoms")
       end
  else match geom with
       | Polygon p => append_rings rings p
       | _ => Raise (AttributeError "exterior")
       end.

Fixpoint extract_loop (feats : list (Value Ring * Series Ring)) (rings : list Ring)
  : result (list Ring) :=
  match feats with
  | [] => Ok rings
  | (_, feat) :: feats' =>
      geom <- geometry_of feat (AttributeError "geometry") ;;
      rings <- extract_feature geom rings ;;
      extract_loop feats' rings
  end.

Definition _extract_rings (df : GeoDataFrame Ring) : result (list Ring) :=
  extract_loop (iterrows df) [].

(** ** [overlay] *)

Definition allowed_hows : list string :=
  ["intersection"; "union"; "identity"; "symmetric_difference"; "difference"].

Definition dquote : string := String (Ascii.ascii_of_nat 34) EmptyString.

(** The message of line 58, with [how] and the list formatted as Python
    formats them. *)
Definition how_msg (how : string) : string :=
  "`how` was " ++ dquote ++ how ++ dquote ++ " but is expected to be in "
  ++ "['intersection', 'union', 'identity', 'symmetric_difference', 'difference']".

(** Lines 68-75: the fast union, and on any failure of it the pairwise
    one.  ([MultiLineString(rings)] only wraps the list of rings.) *)
Definition overlay_union (mls1 mls2 : list Ring) : result Network :=
  match unary_union [mls1; mls2] with
  | inr mm => Ok mm
  | inl _ => lift_kernel (binary_union mls1 mls2)
  end.

(** Lines 91-95 (and 96-100): the scan of one layer, which stops at the
    first candidate the point intersects.  Returns [df_hit] and [prop]. *)
Fixpoint first_hit (cent : PointT) (cands : list (Value Ring * Series Ring))
  : result (bool * option (Series Ring)) :=
  match cands with
  | [] => Ok (false, None)
  | (_, cand) :: cands' =>
      g <- geometry_of cand (KeyError "geometry") ;;
      if intersects cent g then Ok (true, Some cand)
      else first_hit cent cands'
  end.

(** Lines 103-113. *)
Definition overlay_hit (how : string) (df1_hit df2_hit : bool) : bool :=
  if String.eqb how "intersection" && (df1_hit && df2_hit) then true
  else if String.eqb how "union" && (df1_hit || df2_hit) then true
  else if String.eqb how "identity" && df1_hit then true
  else if String.eqb how "symmetric_difference" && negb (df1_hit && df2_hit) then true
  else if String.eqb how "difference" && (df1_hit && negb df2_hit) then true
  else false.

(** Lines 119-122: the record of a layer that was not hit. *)
Definition gather (df : GeoDataFrame Ring) (prop : option (Series Ring)) : Series Ring :=
  match prop with
  | None => fromkeys (columns df) []
  | Some cand => cand
  end.

(** Lines 127-130: the second drop, whose [ValueError] is passed over. *)
Definition drop_if_present (label : string) (s : Series Ring) : result (Series Ring) :=
  match Series_drop label s with
  | Ok s' => Ok s'
  | Raise e => if is_ValueError e then Ok s else Raise e
  end.

(** Lines 123-137: the output row of an included face. *)
Definition out_row (gcol1 gcol2 : string) (prop1 prop2 : Series Ring)
    (newpoly : polygon Ring) : result (Series Ring) :=
  let out_series := concat prop1 prop2 in
  out_series <- Series_drop gcol1 out_series ;;
  out_series <- drop_if_present gcol2 out_series ;;
  Ok (Series_setitem "geometry" (VGeom (Polygon newpoly)) out_series).

(** Lines 81-138, the body of the loop over the recovered faces: [None]
    for a face that is skipped, the face's output row otherwise. *)
Definition overlay_face (df1 df2 : GeoDataFrame Ring) (how : string)
    (newpoly : polygon Ring) : result (option (Series Ring)) :=
  let cent := representative_point newpoly in
  r1 <- first_hit cent (iterrows df1) ;;
  r2 <- first_hit cent (iterrows df2) ;;
  let hit := overlay_hit how (fst r1) (fst r2) in
  if negb hit then Ok None
  else
    row <- out_row (_geometry_column_name df1) (_geometry_column_name df2)
             (gather df1 (snd r1)) (gather df2 (snd r2)) newpoly ;;
    Ok (Some row).

Fixpoint overlay_loop (df1 df2 : GeoDataFrame Ring) (how : string)
    (newpolys : list (polygon Ring)) (collection : list (Series Ring))
  : result (list (Series Ring)) :=
  match newpolys with
  | [] => Ok collection
  | newpoly :: newpolys' =>
      r <- overlay_face df1 df2 how newpoly ;;
      overlay_loop df1 df2 how newpolys'
        (match r with
         | None => collection
         | Some row => collection ++ [row]
         end)
  end.

(** [gdf.reset_index()] on a frame with a flat, unnamed index: the old index
    becomes a column, named [index], or [level_0] when a column [index] is
    there already; the column is inserted in front and must be new. *)
Definition reset_index (gdf : GeoDataFrame Ring) : result (GeoDataFrame Ring) :=
  let name := if bool_decide ("index" ∈ columns gdf) then "level_0" else "index" in
  if bool_decide (name ∈ columns gdf)
  then Raise (ValueError ("cannot insert " ++ name ++ ", already exists"))
  else Ok {| columns := name :: columns gdf;
             iterrows := imap (fun i r => (VInt (Z.of_nat i), (name, fst r) :: snd r))
                              (iterrows gdf);
             _geometry_column_name := _geometry_column_name gdf |}.

(** [gdf.drop(label, axis=1, inplace=True)] *)
Definition DataFrame_drop (label : string) (gdf : GeoDataFrame Ring)
  : result (GeoDataFrame Ring) :=
  if bool_decide (label ∈ columns gdf)
  then Ok {| columns := List.filter (fun c => negb (String.eqb c label)) (columns gdf);
             iterrows := map (fun r => (fst r,
                                List.filter (fun kv => negb (String.eqb (fst kv) label)) (snd r)))
                             (iterrows gdf);
             _geometry_column_name := _geometry_column_name gdf |}
  else Raise (ValueError drop_msg).

(** Lines 141-143. *)
Definition overlay_finish (collection : list (Series Ring)) : result (GeoDataFrame Ring) :=
  gdf <- lift_kernel (GeoDataFrame_of collection) ;;
  gdf <- reset_index gdf ;;
  DataFrame_drop "index" gdf.

(** Lines 76-143: what follows the union. *)
Definition overlay_faces (df1 df2 : GeoDataFrame Ring) (how : string) (mm : Network)
  : result (GeoDataFrame Ring) :=
  let newpolys := polygonize mm in
  collection <- overlay_loop df1 df2 how newpolys [] ;;
  overlay_finish collection.

Definition overlay (df1 df2 : GeoDataFrame Ring) (how : string)
  : result (GeoDataFrame Ring) :=
  if negb (bool_decide (how ∈ allowed_hows))
  then Raise (ValueError (how_msg how))
  else
    rings1 <- _extract_rings df1 ;;
    rings2 <- _extract_rings df2 ;;
    let mls1 := rings1 in
    let mls2 := rings2 in
    mm <- overlay_union mls1 mls2 ;;
    overlay_faces df1 df2 how mm.

(** ** [_extract_rings] over a store of geometry objects

    The same function with the objects it handles made explicit: the
    geometry column of the frame is a list of references into a store,
    [feat.geometry] reads a reference, and [poly.buffer(0)] allocates a new
    object and leaves its receiver alone, after which the local name [poly]
    (or [geom]) is bound to the new object.  The function returns the store
    it leaves behind. *)

Definition alloc (g : Geometry Ring) (h : store) : positive * store :=
  let l := fresh (dom h) in (l, <[l := g]> h).

Definition buffer0_st (poly : polygon Ring) (h : store) : Geometry Ring * store :=
  let repaired := buffer0 poly in
  (repaired, snd (alloc repaired h)).

Definition append_rings_st (rings : list Ring) (poly : polygon Ring) (h : store)
  : result (list Ring) * store :=
  let st := if negb (is_valid poly) then buffer0_st poly h else (Polygon poly, h) in
  (ext <- get_exterior (fst st) ;;
   ints <- get_interiors (fst st) ;;
   Ok ((rings ++ [ext]) ++ ints),
   snd st).

Fixpoint append_all_st (rings : list Ring) (geoms : list (polygon Ring)) (h : store)
  : result (list Ring) * store :=
  match geoms with
  | [] => (Ok rings, h)
  | poly :: geoms' =>
      match append_rings_st rings poly h with
      | (Ok rings', h') => append_all_st rings' geoms' h'
      | (Raise e, h') => (Raise e, h')
      end
  end.

Definition extract_feature_st (geom : Geometry Ring) (rings : list Ring) (h : store)
  : result (list Ring) * store :=
  if negb (bool_decide (geom_type geom ∈ ["Polygon"; "MultiPolygon"]))
  then (Raise (TypeError poly_msg), h)
  else if has_geoms geom
  then match geom with
       | MultiPolygon geoms => append_all_st rings geoms h
       | _ => (Raise (AttributeError "geoms"), h)
       end
  else match geom with
       | Polygon p => append_rings_st rings p h
       | _ => (Raise (AttributeError "exterior"), h)
       end.

Fixpoint extract_loop_st (col : list positive) (rings : list Ring) (h : store)
  : result (list Ring) * store :=
  match col with
  | [] => (Ok rings, h)
  | l :: col' =>
      match h !! l with
      | None => (Raise (AttributeError "type"), h)
      | Some geom =>
          match extract_feature_st geom rings h with
          | (Ok rings', h') => extract_loop_st col' rings' h'
          | (Raise e, h') => (Raise e, h')
          end
      end
  end.

Definition _extract_rings_st (col : list positive) (h : store)
  : result (list Ring) * store :=
  extract_loop_st col [] h.

(** ** The vocabulary of the specification *)

(** The one geometry value of a feature. *)
Definition row_geometry (feat : Series Ring) : option (Geometry Ring) :=
  match Series_get feat "geometry" with
  | [VGeom g] => Some g
  | _ => None
  end.

Definition polygonal (g : Geometry Ring) : bool :=
  match g with
  | Polygon _ | MultiPolygon _ => true
  | OtherGeometry _ => false
  end.

(** A feature collection: the rows share the schema of the frame, the
    designated geometry column is part of it, and every feature carries one
    geometry value. *)
Definition feature_collection (df : GeoDataFrame Ring) : bool :=
  bool_decide (_geometry_column_name df ∈ columns df)
  && forallb (fun r => bool_decide (labels (snd r) = columns df)
                       && bool_decide (is_Some (row_geometry (snd r))))
             (iterrows df).

(** The geometry column, feature by feature. *)
Definition geometry_column (df : GeoDataFrame Ring) : list (Geometry Ring) :=
  omap (fun r => row_geometry (snd r)) (iterrows df).

(** Every feature is a polygon or a multi-polygon. *)
Definition polygonal_collection (df : GeoDataFrame Ring) : bool :=
  forallb polygonal (geometry_column df).


(** The ring sequence of the specification: a polygon, repaired if invalid,
    gives its exterior ring and then its holes; a feature gives the rings of
    its constituent polygons in order; a collection those of its features in
    order.  A repair that comes back in several parts gives the rings of
    its parts. *)
Definition constituent_polygons (g : Geometry Ring) : list (polygon Ring) :=
  match g with
  | Polygon p => [p]
  | MultiPolygon geoms => geoms
  | OtherGeometry _ => []
  end.

Definition repaired (poly : polygon Ring) : Geometry Ring :=
  if is_valid poly then Polygon poly else buffer0 poly.

Definition own_rings (p : polygon Ring) : list Ring :=
  exterior p :: interiors p.

Definition polygon_rings (poly : polygon Ring) : list Ring :=
  flat_map own_rings (constituent_polygons (repaired poly)).

Definition feature_rings (g : Geometry Ring) : list Ring :=
  flat_map polygon_rings (constituent_polygons g).

Definition collection_rings (df : GeoDataFrame Ring) : list Ring :=
  flat_map feature_rings (geometry_column df).

(** A polygon that is valid or that the zero buffer turns into one
    polygon; a geometry and a collection whose polygons are all so. *)
Definition repairs_to_polygon (poly : polygon Ring) : bool :=
  match repaired poly with
  | Polygon _ => true
  | _ => false
  end.

Definition repairable (g : Geometry Ring) : bool :=
  forallb repairs_to_polygon (constituent_polygons g).

Definition repairable_collection (df : GeoDataFrame Ring) : bool :=
  forallb repairable (geometry_column df).

(** Whether the representative point of a face falls in a feature. *)
Definition contains_point (cent : PointT) (r : Value Ring * Series Ring) : bool :=
  match row_geometry (snd r) with
  | Some g => intersects cent g
  | None => false
  end.

(** [df_hit] of the glossary: the representative point of the face falls in
    some feature of the layer. *)
Definition layer_hit (df : GeoDataFrame Ring) (newpoly : polygon Ring) : bool :=
  existsb (contains_point (representative_point newpoly)) (iterrows df).

(** The scan of a layer as the specification words it: the hit record is
    the first feature, in collection order, that contains the point; when
    no feature does there is no hit and no record. *)
Definition first_match (cent : PointT) (cands : list (Value Ring * Series Ring))
    (df_hit : bool) (prop : option (Series Ring)) : Prop :=
  (df_hit = true
   /\ exists pre r post,
        cands = pre ++ r :: post /\ prop = Some (snd r)
        /\ contains_point cent r = true
        /\ forall r', r' ∈ pre -> contains_point cent r' = false)
  \/ (df_hit = false /\ prop = None
      /\ forall r, r ∈ cands -> contains_point cent r = false).

(** The record a layer contributes to the row of a face. *)
Definition face_record (df : GeoDataFrame Ring) (newpoly : polygon Ring) : Series Ring :=
  gather df (option_map snd
               (List.find (contains_point (representative_point newpoly)) (iterrows df))).

(** The entries that survive the two drops. *)
Definition kept (gcol1 gcol2 : string) (s : Series Ring) : Series Ring :=
  List.filter (fun kv => negb (String.eqb (fst kv) gcol1)
                         && negb (String.eqb (fst kv) gcol2)) s.

(** The decision table of the specification, row by row. *)
Definition decision_table (how : string) (df1_hit df2_hit : bool) : Prop :=
  (how = "intersection" /\ df1_hit = true /\ df2_hit = true)
  \/ (how = "union" /\ (df1_hit = true \/ df2_hit = true))
  \/ (how = "identity" /\ df1_hit = true)
  \/ (how = "symmetric_difference" /\ ~ (df1_hit = true /\ df2_hit = true))
  \/ (how = "difference" /\ df1_hit = true /\ df2_hit = false).

(** Whether [overlay] puts a row for the face into its collection. *)
Definition emitted (df1 df2 : GeoDataFrame Ring) (how : string)
    (newpoly : polygon Ring) : bool :=
  match overlay_face df1 df2 how newpoly with
  | Ok (Some _) => true
  | _ => false
  end.

(** A geometry whose polygons are all valid, and a geometry column, held
    in a store, whose geometries are. *)
Definition valid_geometry (g : Geometry Ring) : bool :=
  forallb is_valid (constituent_polygons g).

Definition valid_column (h : store) (col : list positive) : bool :=
  forallb (fun l => match h !! l with
                    | Some g => valid_geometry g
                    | None => false
                    end) col.

(** The exceptions that can come out of the steps after the union: never a
    [TypeError], and a [ValueError] only from a pandas [drop] or [insert]. *)
Definition downstream_error (e : exn) : Prop :=
  match e with
  | TypeError _ => False
  | ValueError msg =>
      msg = drop_msg \/ msg = "cannot insert level_0, already exists"
  | _ => True
  end.

(** The attribute columns of a layer: its columns but the geometry one. *)
Definition attribute_columns (df : GeoDataFrame Ring) : list string :=
  List.filter (fun c => negb (String.eqb c (_geometry_column_name df))) (columns df).

(** The output schema the specification announces. *)
Definition announced_schema (df1 df2 : GeoDataFrame Ring) : list string :=
  attribute_columns df1 ++ attribute_columns df2 ++ ["geometry"].

End Program.

(** * A small instance to run the program on

    Rings are numbers; a union concatenates the rings of both layers, the
    fast one failing on ring 7 and the pairwise one on ring 9; every ring
    of the network bounds one face, whose representative point is the
    number of the ring; a point falls in a polygon when the shell of the
    polygon divides it; a polygon is valid below 100 and repaired by
    subtracting 100 from its shell, which gives one polygon below 200 and
    two parts, the second with shell 1, from 200 on. *)

Module Tiles.

Definition tile_valid (p : polygon nat) : bool := Nat.ltb (exterior p) 100.

Definition tile_repair (p : polygon nat) : Geometry nat :=
  if Nat.ltb (exterior p) 200
  then Polygon (mkPolygon (exterior p - 100) (interiors p))
  else MultiPolygon [mkPolygon (exterior p - 200) (interiors p); mkPolygon 1 []].

Definition tile_unary (mls : list (list nat)) : string + list nat :=
  if existsb (Nat.eqb 7) (List.concat mls) then inl "TopologyException"
  else inr (List.concat mls).

Definition tile_binary (a b : list nat) : string + list nat :=
  if existsb (Nat.eqb 9) (a ++ b) then inl "TopologyException (pairwise)"
  else inr (a ++ b).

Definition tile_faces (net : list nat) : list (polygon nat) :=
  map (fun r => mkPolygon r []) net.

Definition tile_intersects (pt : nat) (g : Geometry nat) : bool :=
  match g with
  | Polygon p => Nat.eqb (pt mod exterior p) 0
  | MultiPolygon geoms => existsb (fun p => Nat.eqb (pt mod exterior p) 0) geoms
  | OtherGeometry _ => false
  end.

Definition tile_frame (rows : list (Series nat)) : string + GeoDataFrame nat :=
  inr {| columns := match rows with
                    | [] => []
                    | r :: _ => labels r
                    end;
         iterrows := imap (fun i r => (VInt (Z.of_nat i), r)) rows;
         _geometry_column_name := "geometry" |}.

Definition tiles : Collaborators :=
  {| Ring := nat;
     PointT := nat;
     Network := list nat;
     is_valid := tile_valid;
     buffer0 := tile_repair;
     unary_union := tile_unary;
     binary_union := tile_binary;
     polygonize := tile_faces;
     representative_point := exterior;
     intersects := tile_intersects;
     GeoDataFrame_of := tile_frame |}.

(** One parcel with shell 2 and a hole 6. *)
Definition parcels : GeoDataFrame nat :=
  {| columns := ["name"; "geometry"];
     iterrows := [(VInt 0, [("name", VStr "a");
                            ("geometry", VGeom (Polygon (mkPolygon 2 [6])))])];
     _geometry_column_name := "geometry" |}.

(** One zone with shell 3, and an attribute column named [index]. *)
Definition zones : GeoDataFrame nat :=
  {| columns := ["index"; "geometry"];
     iterrows := [(VInt 0, [("index", VInt 5);
                            ("geometry", VGeom (Polygon (mkPolygon 3 [])))])];
     _geometry_column_name := "geometry" |}.

(** A layer of points. *)
Definition sites : GeoDataFrame nat :=
  {| columns := ["geometry"];
     iterrows := [(VInt 0, [("geometry", VGeom (OtherGeometry Point))])];
     _geometry_column_name := "geometry" |}.

(** An invalid polygon and a multi-polygon with an invalid part. *)
Definition patches : GeoDataFrame nat :=
  {| columns := ["geometry"];
     iterrows :=
       [(VInt 0, [("geometry", VGeom (Polygon (mkPolygon 104 [8])))]);
        (VInt 1, [("geometry", VGeom (MultiPolygon [mkPolygon 5 [];
                                                    mkPolygon 110 [12; 14]]))])];
     _geometry_column_name := "geometry" |}.

(** A lot whose shell makes the fast union fail. *)
Definition lots : GeoDataFrame nat :=
  {| columns := ["geometry"];
     iterrows := [(VInt 0, [("geometry", VGeom (Polygon (mkPolygon 7 [])))])];
     _geometry_column_name := "geometry" |}.

(** A ruin whose rings make both unions fail. *)
Definition ruins : GeoDataFrame nat :=
  {| columns := ["geometry"];
     iterrows := [(VInt 0, [("geometry", VGeom (Polygon (mkPolygon 7 [9])))])];
     _geometry_column_name := "geometry" |}.

(** A layer without features. *)
Definition nothing : GeoDataFrame nat :=
  {| columns := ["zone"; "geometry"];
     iterrows := [];
     _geometry_column_name := "geometry" |}.

(** The geometries of [patches], held in a store. *)
Definition patch_store : gmap positive (Geometry nat) :=
  <[1%positive := Polygon (mkPolygon 104 [8])]>
    (<[2%positive := MultiPolygon [mkPolygon 5 []; mkPolygon 110 [12; 14]]]> ∅).

(** The same patches, already repaired. *)
Definition sound_store : gmap positive (Geometry nat) :=
  <[1%positive := Polygon (mkPolygon 4 [8])]>
    (<[2%positive := MultiPolygon [mkPolygon 5 []; mkPolygon 10 [12; 14]]]> ∅).

(** The three faces of the network of [parcels] and [zones]. *)
Definition face2 : polygon nat := mkPolygon 2 [].
Definition face6 : polygon nat := mkPolygon 6 [].
Definition face3 : polygon nat := mkPolygon 3 [].

(** What [overlay parcels zones "union"] returns. *)
Definition union_output : GeoDataFrame nat :=
  {| columns := ["level_0"; "name"; "geometry"];
     iterrows :=
       [(VInt 0, [("level_0", VInt 0); ("name", VStr "a");
                  ("geometry", VGeom (Polygon face2))]);
        (VInt 1, [("level_0", VInt 1); ("name", VStr "a");
                  ("geometry", VGeom (Polygon face6))]);
        (VInt 2, [("level_0", VInt 2); ("name", VNone);
                  ("geometry", VGeom (Polygon face3))])];
     _geometry_column_name := "geometry" |}.

(** The features of [patches] followed by those of [zones]. *)
Definition patches_then_zones : GeoDataFrame nat :=
  {| columns := ["geometry"];
     iterrows := iterrows patches ++ iterrows zones;
     _geometry_column_name := "geometry" |}.

(** The parcel of [parcels] with other attributes, another index label and
    another designated geometry column. *)
Definition surveyed : GeoDataFrame nat :=
  {| columns := ["owner"; "area"; "geometry"];
     iterrows := [(VStr "p1", [("owner", VStr "b"); ("area", VInt 12);
                               ("geometry", VGeom (Polygon (mkPolygon 2 [6])))])];
     _geometry_column_name := "shape" |}.

(** A polygon, then a point, then a row without geometry. *)
Definition mixed : GeoDataFrame nat :=
  {| columns := ["geometry"];
     iterrows := [(VInt 0, [("geometry", VGeom (Polygon (mkPolygon 2 [])))]);
                  (VInt 1, [("geometry", VGeom (OtherGeometry Point))]);
                  (VInt 2, [("name", VStr "c")])];
     _geometry_column_name := "geometry" |}.

(** The polygon of [mixed] alone. *)
Definition single : GeoDataFrame nat :=
  {| columns := ["geometry"];
     iterrows := [(VInt 0, [("geometry", VGeom (Polygon (mkPolygon 2 [])))])];
     _geometry_column_name := "geometry" |}.

(** A valid polygon, then an invalid one whose repair has two parts. *)
Definition knots : GeoDataFrame nat :=
  {| columns := ["geometry"];
     iterrows := [(VInt 0, [("geometry", VGeom (Polygon (mkPolygon 2 [])))]);
                  (VInt 1, [("geometry", VGeom (Polygon (mkPolygon 204 [8])))])];
     _geometry_column_name := "geometry" |}.



(** A layer whose geometry column is named [geom]. *)
Definition unlabelled : GeoDataFrame nat :=
  {| columns := ["geom"];
     iterrows := [(VInt 0, [("geom", VGeom (Polygon (mkPolygon 2 [])))])];
     _geometry_column_name := "geom" |}.

(** A layer that repeats a column name. *)
Definition repeated : GeoDataFrame nat :=
  {| columns := ["a"; "geometry"; "a"];
     iterrows := [];
     _geometry_column_name := "geometry" |}.

(** A face in neither [parcels] nor [zones]. *)
Definition face5 : polygon nat := mkPolygon 5 [].

(** Collected rows without and with a column [index], and the frames
    [tile_frame] builds from them. *)
Definition plain_rows : list (Series nat) :=
  [[("name", VStr "a"); ("geometry", VGeom (Polygon face2))];
   [("name", VNone); ("geometry", VGeom (Polygon face3))]].

Definition plain_frame : GeoDataFrame nat :=
  {| columns := ["name"; "geometry"];
     iterrows := [(VInt 0, [("name", VStr "a"); ("geometry", VGeom (Polygon face2))]);
                  (VInt 1, [("name", VNone); ("geometry", VGeom (Polygon face3))])];
     _geometry_column_name := "geometry" |}.

Definition indexed_rows : list (Series nat) :=
  [[("index", VInt 5); ("geometry", VGeom (Polygon face3))]].

Definition indexed_frame : GeoDataFrame nat :=
  {| columns := ["index"; "geometry"];
     iterrows := [(VInt 0, [("index", VInt 5); ("geometry", VGeom (Polygon face3))])];
     _geometry_column_name := "geometry" |}.

End Tiles.

(** * Proofs *)

Section Proofs.
Context {K : Collaborators}.

Implicit Types (df : GeoDataFrame Ring) (feat cand : Series Ring).
Implicit Types (g geom : Geometry Ring) (poly newpoly : polygon Ring).
Implicit Types (rings : list Ring) (how : string).

(** ** Ring extraction *)

Lemma row_geometry_access feat missing g :
  row_geometry feat = Some g -> geometry_of feat missing = Ok g.
Proof.
  unfold row_geometry, geometry_of.
  destruct (Series_get feat "geometry") as [|[] [|]]; congruence.
Qed.

Lemma geometry_of_ok feat missing g :
  geometry_of feat missing = Ok g -> row_geometry feat = Some g.
Proof.
  unfold geometry_of, row_geometry.
  destruct (Series_get feat "geometry") as [|[] [|]]; congruence.
Qed.

Lemma append_rings_spec rings poly :
  repairs_to_polygon poly = true ->
  append_rings rings poly = Ok (rings ++ polygon_rings poly).
Proof.
  unfold repairs_to_polygon, append_rings, polygon_rings, repaired.
  destruct (is_valid poly); simpl.
  - intros _. now rewrite app_nil_r, <- app_assoc.
  - destruct (buffer0 poly) as [q| |]; try discriminate. intros _. simpl.
    now rewrite app_nil_r, <- app_assoc.
Qed.

Lemma append_rings_multipart rings poly :
  repairs_to_polygon poly = false ->
  append_rings rings poly = Raise (AttributeError "exterior").
Proof.
  unfold repairs_to_polygon, append_rings, repaired.
  destruct (is_valid poly); simpl; [discriminate|].
  now destruct (buffer0 poly).
Qed.

Lemma append_rings_acc rings poly :
  append_rings rings poly = (r <- append_rings [] poly ;; Ok (rings ++ r)).
Proof.
  destruct (repairs_to_polygon poly) eqn:Hp.
  - now rewrite !(append_rings_spec _ _ Hp).
  - now rewrite !(append_rings_multipart _ _ Hp).
Qed.

Lemma append_all_spec geoms rings :
  forallb repairs_to_polygon geoms = true ->
  append_all rings geoms = Ok (rings ++ flat_map polygon_rings geoms).
Proof.
  revert rings. induction geoms as [|poly geoms IH]; intros rings Hr; simpl.
  - now rewrite app_nil_r.
  - simpl in Hr. apply andb_prop in Hr as [Hp Hr].
    rewrite (append_rings_spec _ _ Hp). simpl. rewrite (IH _ Hr).
    now rewrite <- app_assoc.
Qed.

Lemma append_all_multipart ps1 p ps2 rings :
  forallb repairs_to_polygon ps1 = true ->
  repairs_to_polygon p = false ->
  append_all rings (ps1 ++ p :: ps2) = Raise (AttributeError "exterior").
Proof.
  revert rings. induction ps1 as [|poly ps1 IH]; intros rings Hr Hp; simpl.
  - now rewrite (append_rings_multipart _ _ Hp).
  - simpl in Hr. apply andb_prop in Hr as [Hpoly Hr].
    rewrite (append_rings_spec _ _ Hpoly). simpl. now apply IH.
Qed.

Lemma append_all_acc geoms rings :
  append_all rings geoms = (r <- append_all [] geoms ;; Ok (rings ++ r)).
Proof.
  revert rings. induction geoms as [|poly geoms IH]; intros rings; simpl.
  - now rewrite app_nil_r.
  - rewrite (append_rings_acc rings poly).
    destruct (append_rings [] poly) as [r|e]; simpl; [|reflexivity].
    rewrite (IH (rings ++ r)), (IH r).
    destruct (append_all [] geoms) as [r'|e]; simpl; [|reflexivity].
    now rewrite app_assoc.
Qed.

Lemma append_all_single rings poly :
  append_all rings [poly] = append_rings rings poly.
Proof. simpl. now destruct (append_rings rings poly). Qed.

Lemma extract_feature_parts g rings :
  polygonal g = true ->
  extract_feature g rings = append_all rings (constituent_polygons g).
Proof.
  destruct g as [p|geoms|k]; intros Hp; try discriminate.
  - unfold extract_feature. cbn [geom_type has_geoms constituent_polygons].
    rewrite append_all_single. reflexivity.
  - reflexivity.
Qed.

Lemma extract_feature_polygonal g rings :
  polygonal g = true -> repairable g = true ->
  extract_feature g rings = Ok (rings ++ feature_rings g).
Proof.
  intros Hp Hr. rewrite (extract_feature_parts _ _ Hp).
  now apply append_all_spec.
Qed.

Lemma extract_feature_multipart g rings ps1 p ps2 :
  polygonal g = true ->
  constituent_polygons g = ps1 ++ p :: ps2 ->
  forallb repairs_to_polygon ps1 = true ->
  repairs_to_polygon p = false ->
  extract_feature g rings = Raise (AttributeError "exterior").
Proof.
  intros Hp Hparts H1 Hbad. rewrite (extract_feature_parts _ _ Hp), Hparts.
  now apply append_all_multipart.
Qed.

Lemma extract_feature_unsupported g rings :
  polygonal g = false -> extract_feature g rings = Raise (TypeError poly_msg).
Proof.
  destruct g as [p|geoms|k]; intros Hp; try discriminate.
  now destruct k.
Qed.

Lemma extract_feature_acc g rings :
  extract_feature g rings
  = (r <- extract_feature g [] ;; Ok (rings ++ r)).
Proof.
  destruct (polygonal g) eqn:Hp.
  - rewrite !(extract_feature_parts _ _ Hp). apply append_all_acc.
  - now rewrite !(extract_feature_unsupported _ _ Hp).
Qed.

Lemma extract_loop_acc (feats : list (Value Ring * Series Ring)) rings :
  extract_loop feats rings = (r <- extract_loop feats [] ;; Ok (rings ++ r)).
Proof.
  revert rings. induction feats as [|[i feat] feats IH]; intros rings; simpl.
  - now rewrite app_nil_r.
  - destruct (geometry_of feat _) as [g|e]; simpl; [|reflexivity].
    rewrite (extract_feature_acc g rings).
    destruct (extract_feature g []) as [r|e]; simpl; [|reflexivity].
    rewrite (IH (rings ++ r)), (IH r).
    destruct (extract_loop feats []) as [r'|e]; simpl; [|reflexivity].
    now rewrite app_assoc.
Qed.

Lemma extract_loop_app (feats1 feats2 : list (Value Ring * Series Ring)) rings :
  extract_loop (feats1 ++ feats2) rings
  = (r <- extract_loop feats1 rings ;; extract_loop feats2 r).
Proof.
  revert rings. induction feats1 as [|[i feat] feats1 IH]; intros rings; simpl.
  - reflexivity.
  - destruct (geometry_of feat _) as [g|e]; simpl; [|reflexivity].
    destruct (extract_feature g rings) as [r|e]; simpl; [|reflexivity].
    apply IH.
Qed.

Lemma extract_loop_polygonal (feats : list (Value Ring * Series Ring)) rings :
  forallb (fun r => bool_decide (is_Some (row_geometry (snd r)))) feats = true ->
  forallb polygonal (omap (fun r => row_geometry (snd r)) feats) = true ->
  forallb repairable (omap (fun r => row_geometry (snd r)) feats) = true ->
  extract_loop feats rings
  = Ok (rings ++ flat_map feature_rings (omap (fun r => row_geometry (snd r)) feats)).
Proof.
  revert rings. induction feats as [|[i feat] feats IH]; intros rings Hg Hp Hr; simpl.
  - now rewrite app_nil_r.
  - simpl in Hg. apply andb_prop in Hg as [Hfeat Hg].
    apply bool_decide_eq_true in Hfeat as [g Hfeat]. simpl in Hfeat.
    simpl in Hp, Hr. rewrite Hfeat in Hp, Hr |- *. simpl in Hp, Hr.
    apply andb_prop in Hp as [Hpg Hp]. apply andb_prop in Hr as [Hrg Hr].
    rewrite (row_geometry_access _ _ _ Hfeat). simpl.
    rewrite (extract_feature_polygonal _ _ Hpg Hrg). simpl.
    rewrite (IH _ Hg Hp Hr). now rewrite <- app_assoc.
Qed.

Lemma feature_collection_rows df :
  feature_collection df = true ->
  forallb (fun r => bool_decide (is_Some (row_geometry (snd r)))) (iterrows df) = true.
Proof.
  unfold feature_collection. intros H. apply andb_prop in H as [_ H].
  rewrite forallb_forall in H |- *. intros r Hr.
  specialize (H r Hr). now apply andb_prop in H as [_ H].
Qed.

Lemma extract_rings_polygonal df :
  feature_collection df = true ->
  polygonal_collection df = true ->
  repairable_collection df = true ->
  _extract_rings df = Ok (collection_rings df).
Proof.
  intros Hfc Hp Hr. unfold _extract_rings, collection_rings.
  now rewrite (extract_loop_polygonal _ [] (feature_collection_rows _ Hfc) Hp Hr).
Qed.

Lemma extract_rings_after df dfpre i feat post rings0 :
  iterrows df = iterrows dfpre ++ (i, feat) :: post ->
  _extract_rings dfpre = Ok rings0 ->
  _extract_rings df
  = (geom <- geometry_of feat (AttributeError "geometry") ;;
     rings <- extract_feature geom rings0 ;;
     extract_loop post rings).
Proof.
  unfold _extract_rings. intros Hrows Hpre.
  now rewrite Hrows, extract_loop_app, Hpre.
Qed.

(** C6. The code does not return the ring sequence for every collection of
    polygons and multi-polygons: when the zero buffer of an invalid polygon
    comes back as a multi-polygon, lines 30-31 and 36-37 read [exterior] on
    it and ring extraction ends in an [AttributeError], where the sequence
    of the specification holds the rings of the parts of the repair. *)
Theorem extract_rings_multipart_repair df dfpre i feat post rings0 g ps1 p ps2 parts :
  iterrows df = iterrows dfpre ++ (i, feat) :: post ->
  _extract_rings dfpre = Ok rings0 ->
  row_geometry feat = Some g ->
  polygonal g = true ->
  constituent_polygons g = ps1 ++ p :: ps2 ->
  forallb repairs_to_polygon ps1 = true ->
  is_valid p = false ->
  buffer0 p = MultiPolygon parts ->
  _extract_rings df = Raise (AttributeError "exterior")
  /\ polygon_rings p = flat_map own_rings parts.
Proof.
  intros Hrows Hpre Hg Hp Hparts H1 Hinv Hbuf. split.
  - rewrite (extract_rings_after _ _ _ _ _ _ Hrows Hpre).
    rewrite (row_geometry_access _ _ _ Hg). simpl.
    rewrite (extract_feature_multipart g rings0 ps1 p ps2 Hp Hparts H1); [reflexivity|].
    unfold repairs_to_polygon, repaired. now rewrite Hinv, Hbuf.
  - unfold polygon_rings, repaired. now rewrite Hinv, Hbuf.
Qed.

(** ** Which exception comes from where *)

Ltac bind_cases H :=
  match type of H with
  | bind ?m _ = _ =>
      let a := fresh "a" in
      let e := fresh "e" in
      let E := fresh "E" in
      destruct m as [a|e] eqn:E; simpl in H
  end.

Lemma first_hit_error (cent : PointT) (cands : list (Value Ring * Series Ring)) e :
  first_hit cent cands = Raise e -> downstream_error e.
Proof.
  induction cands as [|[i cand] cands IH]; simpl; [discriminate|].
  unfold geometry_of.
  destruct (Series_get cand "geometry") as [|[] [|]]; simpl;
    try (intros [= <-]; exact I).
  destruct (intersects cent g); [discriminate|exact IH].
Qed.

Lemma Series_drop_error label (s : Series Ring) e :
  Series_drop label s = Raise e -> e = ValueError drop_msg.
Proof. unfold Series_drop. case_bool_decide; congruence. Qed.

Lemma drop_if_present_ok label (s : Series Ring) :
  exists s', drop_if_present label s = Ok s'.
Proof.
  unfold drop_if_present. destruct (Series_drop label s) as [s'|e] eqn:E; eauto.
  apply Series_drop_error in E as ->. simpl. eauto.
Qed.

Lemma out_row_error gcol1 gcol2 (prop1 prop2 : Series Ring) newpoly e :
  out_row gcol1 gcol2 prop1 prop2 newpoly = Raise e -> e = ValueError drop_msg.
Proof.
  unfold out_row. intros H. bind_cases H.
  - destruct (drop_if_present_ok gcol2 a) as [s' Hs']. rewrite Hs' in H. discriminate.
  - injection H as <-. now apply Series_drop_error in E.
Qed.

Lemma overlay_face_error df1 df2 how newpoly e :
  overlay_face df1 df2 how newpoly = Raise e -> downstream_error e.
Proof.
  unfold overlay_face. intros H. bind_cases H.
  - bind_cases H.
    + destruct (negb _); [discriminate|]. bind_cases H; [discriminate|].
      injection H as <-. apply out_row_error in E1 as ->. now left.
    + injection H as <-. eapply first_hit_error, E0.
  - injection H as <-. eapply first_hit_error, E.
Qed.

Lemma overlay_loop_error df1 df2 how newpolys collection e :
  overlay_loop df1 df2 how newpolys collection = Raise e -> downstream_error e.
Proof.
  revert collection. induction newpolys as [|newpoly newpolys IH]; intros collection; simpl.
  - discriminate.
  - intros H. bind_cases H.
    + eapply IH, H.
    + injection H as <-. eapply overlay_face_error, E.
Qed.

Lemma reset_index_error (gdf : GeoDataFrame Ring) e :
  reset_index gdf = Raise e -> downstream_error e.
Proof.
  unfold reset_index. destruct (bool_decide ("index" ∈ columns gdf)) eqn:Hi.
  - destruct (bool_decide ("level_0" ∈ columns gdf)); [|discriminate].
    intros [= <-]. now right.
  - rewrite Hi. discriminate.
Qed.

Lemma DataFrame_drop_error label (gdf : GeoDataFrame Ring) e :
  DataFrame_drop label gdf = Raise e -> e = ValueError drop_msg.
Proof. unfold DataFrame_drop. case_bool_decide; congruence. Qed.

Lemma overlay_finish_error (collection : list (Series Ring)) e :
  overlay_finish collection = Raise e -> downstream_error e.
Proof.
  unfold overlay_finish. intros H. bind_cases H.
  - bind_cases H.
    + apply DataFrame_drop_error in H as ->. now left.
    + injection H as <-. eapply reset_index_error, E0.
  - injection H as <-. destruct (GeoDataFrame_of collection); [|discriminate].
    injection E as <-. exact I.
Qed.

Lemma overlay_faces_error df1 df2 how (mm : Network) e :
  overlay_faces df1 df2 how mm = Raise e -> downstream_error e.
Proof.
  unfold overlay_faces. intros H. bind_cases H.
  - eapply overlay_finish_error, H.
  - injection H as <-. eapply overlay_loop_error, E.
Qed.

Lemma overlay_union_error (mls1 mls2 : list Ring) e :
  overlay_union mls1 mls2 = Raise e ->
  exists d1 d2, unary_union [mls1; mls2] = inl d1
                /\ binary_union mls1 mls2 = inl d2 /\ e = KernelError d2.
Proof.
  unfold overlay_union. destruct (unary_union [mls1; mls2]) as [d1|mm]; [|discriminate].
  destruct (binary_union mls1 mls2) as [d2|mm]; [|discriminate].
  intros [= <-]. eauto.
Qed.

Lemma how_msg_not_downstream how : ~ downstream_error (ValueError (how_msg how)).
Proof. intros [H|H]; discriminate H. Qed.

Lemma overlay_allowed df1 df2 how :
  how ∈ allowed_hows ->
  overlay df1 df2 how
  = (rings1 <- _extract_rings df1 ;;
     rings2 <- _extract_rings df2 ;;
     mm <- overlay_union rings1 rings2 ;;
     overlay_faces df1 df2 how mm).
Proof.
  intros Hin. unfold overlay. now rewrite (bool_decide_eq_true_2 _ Hin).
Qed.

Lemma append_all_error geoms rings e :
  append_all rings geoms = Raise e -> e = AttributeError "exterior".
Proof.
  revert rings. induction geoms as [|poly geoms IH]; intros rings; simpl.
  - discriminate.
  - destruct (repairs_to_polygon poly) eqn:Hp.
    + rewrite (append_rings_spec _ _ Hp). simpl. apply IH.
    + rewrite (append_rings_multipart _ _ Hp). simpl. now intros [= <-].
Qed.

Lemma extract_feature_error g rings e :
  extract_feature g rings = Raise e ->
  (polygonal g = false /\ e = TypeError poly_msg)
  \/ (polygonal g = true /\ e = AttributeError "exterior").
Proof.
  destruct (polygonal g) eqn:Hp.
  - rewrite (extract_feature_parts _ _ Hp). intros H. right.
    split; [reflexivity|]. eapply append_all_error, H.
  - rewrite (extract_feature_unsupported _ _ Hp). intros [= <-]. now left.
Qed.

Lemma geometry_of_error feat missing e :
  geometry_of feat missing = Raise e ->
  row_geometry feat = None /\ (e = missing \/ e = AttributeError "type").
Proof.
  unfold geometry_of, row_geometry.
  destruct (Series_get feat "geometry") as [|[] [|]];
    try discriminate; intros [= <-]; auto.
Qed.

Lemma extract_loop_error (feats : list (Value Ring * Series Ring)) rings e :
  extract_loop feats rings = Raise e ->
  e = TypeError poly_msg \/ exists name, e = AttributeError name.
Proof.
  revert rings. induction feats as [|[i feat] feats IH]; intros rings; simpl.
  - discriminate.
  - intros H. bind_cases H.
    + bind_cases H; [now apply IH in H|]. injection H as <-.
      apply extract_feature_error in E0 as [[_ ->]|[_ ->]]; eauto.
    + injection H as <-. apply geometry_of_error in E as [_ [->| ->]]; eauto.
Qed.


Lemma extract_rings_first_unsupported df dfpre i feat post rings0 g :
  iterrows df = iterrows dfpre ++ (i, feat) :: post ->
  _extract_rings dfpre = Ok rings0 ->
  row_geometry feat = Some g ->
  polygonal g = false ->
  _extract_rings df = Raise (TypeError poly_msg).
Proof.
  intros Hrows Hpre Hg Hp. rewrite (extract_rings_after _ _ _ _ _ _ Hrows Hpre).
  rewrite (row_geometry_access _ _ _ Hg). simpl.
  now rewrite (extract_feature_unsupported _ _ Hp).
Qed.


(** C3. A relation outside the five recognized values makes [overlay] end
    in the [ValueError] of line 58 whatever the two collections are and
    whatever the collaborators would do with them; with a recognized
    relation [overlay] never ends in that error. *)
Theorem invalid_relation df1 df2 how :
  (how ∉ allowed_hows -> overlay df1 df2 how = Raise (ValueError (how_msg how)))
  /\ (how ∈ allowed_hows ->
      forall h, overlay df1 df2 how <> Raise (ValueError (how_msg h))).
Proof.
  split.
  - intros Hout. unfold overlay. now rewrite (bool_decide_eq_false_2 _ Hout).
  - intros Hin h. rewrite (overlay_allowed _ _ _ Hin). intros Hr.
    bind_cases Hr.
    + bind_cases Hr.
      * bind_cases Hr.
        -- apply overlay_faces_error in Hr. now apply how_msg_not_downstream in Hr.
        -- injection Hr as ->. apply overlay_union_error in E1 as (d1 & d2 & _ & _ & [=]).
      * injection Hr as ->. apply extract_loop_error in E0 as [[=]|[name [=]]].
    + injection Hr as ->. apply extract_loop_error in E as [[=]|[name [=]]].
Qed.

(** C5. When the fast [unary_union] fails, with whatever error, the merged
    network is the one of the pairwise [union]: [overlay] goes on with it
    when it succeeds and ends in its error when it fails, and the error of
    the fast union appears in neither.  The union step fails only when
    both unions fail. *)
Theorem union_fallback df1 df2 how rings1 rings2 :
  how ∈ allowed_hows ->
  _extract_rings df1 = Ok rings1 ->
  _extract_rings df2 = Ok rings2 ->
  (forall d1, unary_union [rings1; rings2] = inl d1 ->
     overlay_union rings1 rings2 = lift_kernel (binary_union rings1 rings2)
     /\ (forall mm, binary_union rings1 rings2 = inr mm ->
           overlay df1 df2 how = overlay_faces df1 df2 how mm)
     /\ (forall d2, binary_union rings1 rings2 = inl d2 ->
           overlay df1 df2 how = Raise (KernelError d2)))
  /\ (forall e, overlay_union rings1 rings2 = Raise e ->
        exists d1 d2, unary_union [rings1; rings2] = inl d1
                      /\ binary_union rings1 rings2 = inl d2
                      /\ e = KernelError d2).
Proof.
  intros Hin H1 H2. split.
  - intros d1 Hfast.
    assert (Hu : overlay_union rings1 rings2 = lift_kernel (binary_union rings1 rings2))
      by (unfold overlay_union; now rewrite Hfast).
    split; [exact Hu|]. rewrite (overlay_allowed _ _ _ Hin), H1, H2. simpl. rewrite Hu.
    split; intros x ->; reflexivity.
  - apply overlay_union_error.
Qed.

(** ** Rows: lookup, drop and item assignment *)

Lemma Series_get_app (s1 s2 : Series Ring) c :
  Series_get (s1 ++ s2) c = Series_get s1 c ++ Series_get s2 c.
Proof. unfold Series_get. now rewrite List.filter_app, map_app. Qed.

Lemma Series_get_absent (s : Series Ring) c :
  c ∉ labels s -> Series_get s c = [].
Proof.
  induction s as [|[l v] s IH]; [reflexivity|].
  unfold Series_get in *. simpl. intros Hc.
  apply not_elem_of_cons in Hc as [Hne Hc].
  destruct (String.eqb_spec l c); [congruence|]. now apply IH.
Qed.

Lemma Series_get_kept gcol1 gcol2 (s : Series Ring) c :
  c <> gcol1 -> c <> gcol2 -> Series_get (kept gcol1 gcol2 s) c = Series_get s c.
Proof.
  intros H1 H2. induction s as [|[l v] s IH]; [reflexivity|].
  unfold Series_get, kept in *. simpl.
  destruct (String.eqb_spec l c) as [->|Hlc].
  - destruct (String.eqb_spec c gcol1); [contradiction|].
    destruct (String.eqb_spec c gcol2); [contradiction|].
    simpl. rewrite String.eqb_refl. simpl. now rewrite IH.
  - destruct (negb (String.eqb l gcol1) && negb (String.eqb l gcol2)); simpl.
    + destruct (String.eqb_spec l c); [contradiction|]. exact IH.
    + exact IH.
Qed.

Lemma kept_labels gcol1 gcol2 (s : Series Ring) c :
  c ∈ labels (kept gcol1 gcol2 s) <-> c ∈ labels s /\ c <> gcol1 /\ c <> gcol2.
Proof.
  induction s as [|[l v] s IH]; simpl.
  - split; [intros H; inversion H|intros [H _]; inversion H].
  - unfold kept in *. simpl.
    destruct (String.eqb_spec l gcol1) as [->|H1]; simpl.
    + rewrite IH, elem_of_cons. set_solver.
    + destruct (String.eqb_spec l gcol2) as [->|H2]; simpl.
      * rewrite IH, elem_of_cons. set_solver.
      * rewrite !elem_of_cons, IH. set_solver.
Qed.

Lemma Series_get_setitem_other label v (s : Series Ring) c :
  c <> label -> Series_get (Series_setitem label v s) c = Series_get s c.
Proof.
  intros Hc. unfold Series_setitem. case_bool_decide.
  - clear H. induction s as [|[l w] s IH]; [reflexivity|].
    unfold Series_get in *. simpl.
    destruct (String.eqb_spec l label) as [->|Hl]; simpl.
    + destruct (String.eqb_spec label c); [congruence|]. exact IH.
    + destruct (String.eqb_spec l c); simpl; now rewrite IH.
  - rewrite Series_get_app. unfold Series_get at 2. simpl.
    destruct (String.eqb_spec label c); [congruence|]. now rewrite app_nil_r.
Qed.

Lemma setitem_labels label v (s : Series Ring) c :
  c ∈ labels (Series_setitem label v s) <-> c = label \/ c ∈ labels s.
Proof.
  unfold Series_setitem. case_bool_decide as Hin.
  - assert (Heq : labels (map (fun kv : string * Value Ring =>
               if String.eqb (fst kv) label then (label, v) else kv) s) = labels s).
    { clear Hin. induction s as [|[l w] s IH]; [reflexivity|]. simpl.
      destruct (String.eqb_spec l label) as [->|]; simpl; now rewrite IH. }
    rewrite Heq. set_solver.
  - unfold labels. rewrite map_app, elem_of_app. simpl.
    rewrite list_elem_of_singleton. naive_solver.
Qed.

Lemma Series_get_fromkeys cols seen c :
  Series_get (fromkeys (R := Ring) cols seen) c
  = if bool_decide (c ∈ seen) then []
    else if bool_decide (c ∈ cols) then [VNone] else [].
Proof.
  revert seen. induction cols as [|c0 cols IH]; intros seen; simpl.
  - now destruct (bool_decide (c ∈ seen)).
  - destruct (bool_decide (c0 ∈ seen)) eqn:H0.
    + rewrite IH. apply bool_decide_eq_true in H0.
      repeat case_bool_decide; set_solver.
    + apply bool_decide_eq_false in H0.
      unfold Series_get in *. simpl.
      destruct (String.eqb_spec c0 c) as [->|Hne]; simpl.
      * rewrite IH. repeat case_bool_decide; set_solver.
      * rewrite IH. repeat case_bool_decide; set_solver.
Qed.

Lemma fromkeys_labels cols seen c :
  c ∈ labels (fromkeys (R := Ring) cols seen) <-> c ∈ cols /\ c ∉ seen.
Proof.
  revert seen. induction cols as [|c0 cols IH]; intros seen; simpl.
  - set_solver.
  - case_bool_decide as H0; simpl.
    + rewrite IH. set_solver.
    + rewrite elem_of_cons, IH. destruct (decide (c = c0)); set_solver.
Qed.

Lemma filter_absent label (s : Series Ring) :
  label ∉ labels s ->
  List.filter (fun kv => negb (String.eqb (fst kv) label)) s = s.
Proof.
  induction s as [|[l v] s IH]; [reflexivity|]. simpl. intros Hl.
  apply not_elem_of_cons in Hl as [Hne Hl].
  destruct (String.eqb_spec l label); [congruence|]. simpl. now rewrite IH.
Qed.

Lemma dropped_label_absent label (s : Series Ring) :
  label ∉ labels (List.filter (fun kv => negb (String.eqb (fst kv) label)) s).
Proof.
  unfold labels. rewrite list_elem_of_fmap. intros ([l v] & Hl & Hin).
  simpl in Hl. subst l.
  apply list_elem_of_In, List.filter_In in Hin as [_ Hin].
  simpl in Hin. now rewrite String.eqb_refl in Hin.
Qed.

Lemma drop_if_present_filter label (s : Series Ring) :
  drop_if_present label s
  = Ok (List.filter (fun kv => negb (String.eqb (fst kv) label)) s).
Proof.
  unfold drop_if_present, Series_drop. case_bool_decide; simpl; [reflexivity|].
  now rewrite filter_absent.
Qed.

Lemma filter_twice_kept gcol1 gcol2 (s : Series Ring) :
  List.filter (fun kv => negb (String.eqb (fst kv) gcol2))
    (List.filter (fun kv => negb (String.eqb (fst kv) gcol1)) s)
  = kept gcol1 gcol2 s.
Proof.
  unfold kept. induction s as [|[l v] s IH]; [reflexivity|]. simpl.
  destruct (negb (String.eqb l gcol1)); simpl; [|exact IH].
  destruct (negb (String.eqb l gcol2)); simpl; now rewrite IH.
Qed.

Lemma out_row_ok gcol1 gcol2 (prop1 prop2 : Series Ring) newpoly :
  gcol1 ∈ labels (concat prop1 prop2) ->
  out_row gcol1 gcol2 prop1 prop2 newpoly
  = Ok (Series_setitem "geometry" (VGeom (Polygon newpoly))
          (kept gcol1 gcol2 (concat prop1 prop2))).
Proof.
  intros Hin. unfold out_row, Series_drop.
  rewrite (bool_decide_eq_true_2 _ Hin). simpl.
  rewrite drop_if_present_filter. simpl. now rewrite filter_twice_kept.
Qed.

(** ** The scan of a layer *)

Lemma first_hit_scan (cent : PointT) (cands : list (Value Ring * Series Ring)) :
  forallb (fun r => bool_decide (is_Some (row_geometry (snd r)))) cands = true ->
  exists df_hit prop,
    first_hit cent cands = Ok (df_hit, prop)
    /\ first_match cent cands df_hit prop
    /\ df_hit = existsb (contains_point cent) cands
    /\ prop = option_map snd (List.find (contains_point cent) cands).
Proof.
  induction cands as [|[i cand] cands IH]; simpl; intros Hg.
  - exists false, None. repeat split. right. repeat split. intros r Hr. inversion Hr.
  - apply andb_prop in Hg as [Hcand Hg].
    apply bool_decide_eq_true in Hcand as [g Hcand]. simpl in Hcand.
    rewrite (row_geometry_access _ _ _ Hcand). simpl.
    assert (Hc : contains_point cent (i, cand) = intersects cent g)
      by (unfold contains_point; simpl; now rewrite Hcand).
    rewrite Hc. destruct (intersects cent g) eqn:Hi; simpl.
    + exists true, (Some cand). repeat split. left. split; [reflexivity|].
      exists [], (i, cand), cands. repeat split; [exact Hc|].
      intros r Hr. inversion Hr.
    + destruct (IH Hg) as (df_hit & prop & -> & Hfm & -> & ->).
      eexists _, _. repeat split.
      destruct Hfm as [[Hhit (pre & r & post & -> & Hprop & Hr & Hpre)]|[Hhit [Hprop Hall]]].
      * left. split; [exact Hhit|].
        exists ((i, cand) :: pre), r, post. repeat split; [exact Hprop|exact Hr|].
        intros r' Hr'. apply elem_of_cons in Hr' as [->|Hr']; [exact Hc|now apply Hpre].
      * right. repeat split; [exact Hhit|exact Hprop|].
        intros r' Hr'. apply elem_of_cons in Hr' as [->|Hr']; [exact Hc|now apply Hall].
Qed.

Lemma first_hit_stops (cent : PointT) (pre post : list (Value Ring * Series Ring)) r :
  (forall r', r' ∈ pre ->
              is_Some (row_geometry (snd r')) /\ contains_point cent r' = false) ->
  contains_point cent r = true ->
  first_hit cent (pre ++ r :: post) = Ok (true, Some (snd r)).
Proof.
  intros Hpre Hr. induction pre as [|[i cand] pre IH]; simpl.
  - destruct r as [i cand]. unfold contains_point in Hr. simpl in *.
    destruct (row_geometry cand) as [g|] eqn:Hg; [|discriminate].
    rewrite (row_geometry_access _ _ _ Hg). simpl. now rewrite Hr.
  - destruct (Hpre (i, cand)) as [[g Hg] Hc]; [left|].
    simpl in Hg. unfold contains_point in Hc. simpl in Hc. rewrite Hg in Hc.
    rewrite (row_geometry_access _ _ _ Hg). simpl. rewrite Hc.
    apply IH. intros r' Hr'. apply Hpre. now right.
Qed.

Lemma face_record_labels df newpoly c :
  feature_collection df = true ->
  c ∈ labels (face_record df newpoly) <-> c ∈ columns df.
Proof.
  intros Hfc. unfold face_record.
  destruct (List.find _ (iterrows df)) as [r|] eqn:Hfind; simpl.
  - apply List.find_some in Hfind as [Hr _].
    unfold feature_collection in Hfc. apply andb_prop in Hfc as [_ Hrows].
    rewrite forallb_forall in Hrows. specialize (Hrows r Hr).
    apply andb_prop in Hrows as [Hl _]. apply bool_decide_eq_true in Hl.
    now rewrite Hl.
  - rewrite fromkeys_labels. set_solver.
Qed.

Lemma overlay_face_record df1 df2 how newpoly :
  feature_collection df1 = true ->
  feature_collection df2 = true ->
  overlay_face df1 df2 how newpoly
  = Ok (if overlay_hit how (layer_hit df1 newpoly) (layer_hit df2 newpoly)
        then Some (Series_setitem "geometry" (VGeom (Polygon newpoly))
                     (kept (_geometry_column_name df1) (_geometry_column_name df2)
                        (concat (face_record df1 newpoly) (face_record df2 newpoly))))
        else None).
Proof.
  intros Hfc1 Hfc2. unfold overlay_face.
  destruct (first_hit_scan (representative_point newpoly) (iterrows df1)
              (feature_collection_rows _ Hfc1)) as (h1 & p1 & -> & _ & -> & ->).
  destruct (first_hit_scan (representative_point newpoly) (iterrows df2)
              (feature_collection_rows _ Hfc2)) as (h2 & p2 & -> & _ & -> & ->).
  simpl. fold (layer_hit df1 newpoly) (layer_hit df2 newpoly).
  fold (face_record df1 newpoly) (face_record df2 newpoly).
  destruct (overlay_hit how _ _); simpl; [|reflexivity].
  rewrite out_row_ok; [reflexivity|].
  unfold concat, labels. rewrite map_app, elem_of_app. left.
  apply (face_record_labels df1 newpoly _ Hfc1).
  unfold feature_collection in Hfc1. apply andb_prop in Hfc1 as [Hg _].
  now apply bool_decide_eq_true in Hg.
Qed.

Lemma emitted_hit df1 df2 how newpoly :
  feature_collection df1 = true ->
  feature_collection df2 = true ->
  emitted df1 df2 how newpoly
  = overlay_hit how (layer_hit df1 newpoly) (layer_hit df2 newpoly).
Proof.
  intros Hfc1 Hfc2. unfold emitted.
  rewrite (overlay_face_record _ _ _ _ Hfc1 Hfc2).
  now destruct (overlay_hit how _ _).
Qed.

Lemma overlay_hit_table how (df1_hit df2_hit : bool) :
  overlay_hit how df1_hit df2_hit = true <-> decision_table how df1_hit df2_hit.
Proof.
  unfold overlay_hit, decision_table. split.
  - repeat match goal with
           | |- context [String.eqb how ?s] =>
               destruct (String.eqb_spec how s); [subst how|]
           end;
      destruct df1_hit, df2_hit; simpl; intros H; try discriminate H;
      intuition congruence.
  - intros [(-> & -> & ->)|[(-> & H)|[(-> & ->)|[(-> & H)|(-> & -> & ->)]]]];
      try reflexivity; destruct df1_hit, df2_hit; simpl; try reflexivity;
      exfalso; intuition congruence.
Qed.

Lemma overlay_loop_rows df1 df2 how newpolys collection :
  feature_collection df1 = true ->
  feature_collection df2 = true ->
  exists rows,
    overlay_loop df1 df2 how newpolys collection = Ok (collection ++ rows)
    /\ Forall2 (fun newpoly row => overlay_face df1 df2 how newpoly = Ok (Some row))
               (List.filter (emitted df1 df2 how) newpolys) rows.
Proof.
  intros Hfc1 Hfc2. revert collection.
  induction newpolys as [|newpoly newpolys IH]; intros collection; simpl.
  - exists []. split; [now rewrite app_nil_r|constructor].
  - unfold emitted at 1.
    pose proof (overlay_face_record _ _ how newpoly Hfc1 Hfc2) as Hface.
    rewrite Hface. destruct (overlay_hit how _ _) eqn:Hhit; simpl; [|apply IH].
    match type of Hface with
    | _ = Ok (Some ?r) =>
        destruct (IH (collection ++ [r])) as (rows & -> & Hrows); exists (r :: rows)
    end.
    split; [now rewrite <- app_assoc|]. constructor; [exact Hface|exact Hrows].
Qed.

(** C1. A recovered face gets a row in the collection of [overlay] exactly
    when the row of the decision table for the requested relation holds of
    [df1_hit] and [df2_hit]; whether it does is the value of [overlay_hit]
    at the triple (relation, [df1_hit], [df2_hit]) and of nothing else; a
    face that is left out raises nothing; and the collection holds, in
    order, one row for each included face. *)
Theorem overlay_inclusion df1 df2 how newpoly :
  feature_collection df1 = true ->
  feature_collection df2 = true ->
  emitted df1 df2 how newpoly
  = overlay_hit how (layer_hit df1 newpoly) (layer_hit df2 newpoly)
  /\ (emitted df1 df2 how newpoly = true
      <-> decision_table how (layer_hit df1 newpoly) (layer_hit df2 newpoly))
  /\ (emitted df1 df2 how newpoly = false ->
      overlay_face df1 df2 how newpoly = Ok None)
  /\ (forall newpolys, exists collection,
        overlay_loop df1 df2 how newpolys [] = Ok collection
        /\ Forall2 (fun f row => overlay_face df1 df2 how f = Ok (Some row))
                   (List.filter (emitted df1 df2 how) newpolys) collection).
Proof.
  intros Hfc1 Hfc2. pose proof (emitted_hit _ _ how newpoly Hfc1 Hfc2) as He.
  split; [exact He|]. split; [rewrite He; apply overlay_hit_table|]. split.
  - rewrite He. intros Hhit.
    now rewrite (overlay_face_record _ _ _ _ Hfc1 Hfc2), Hhit.
  - intros newpolys.
    destruct (overlay_loop_rows df1 df2 how newpolys [] Hfc1 Hfc2) as (rows & Hl & Hr).
    exists rows. split; [exact Hl|exact Hr].
Qed.

Lemma filter_complement_length {A : Type} (f : A -> bool) (l : list A) :
  length (List.filter f l) + length (List.filter (fun x => negb (f x)) l) = length l.
Proof.
  induction l as [|x l IH]; [reflexivity|]. simpl.
  destruct (f x); simpl; lia.
Qed.

(** C7. On the same two collections and the same recovered faces, a face
    is included under [symmetric_difference] exactly when it is left out
    under [intersection]: the faces the one emits are those the other does
    not, and the two collections together have one row per face. *)
Theorem symmetric_difference_complement df1 df2 newpolys :
  feature_collection df1 = true ->
  feature_collection df2 = true ->
  (forall newpoly,
     emitted df1 df2 "symmetric_difference" newpoly
     = negb (emitted df1 df2 "intersection" newpoly))
  /\ List.filter (emitted df1 df2 "symmetric_difference") newpolys
     = List.filter (fun f => negb (emitted df1 df2 "intersection" f)) newpolys
  /\ exists sym int,
       overlay_loop df1 df2 "symmetric_difference" newpolys [] = Ok sym
       /\ overlay_loop df1 df2 "intersection" newpolys [] = Ok int
       /\ length sym + length int = length newpolys.
Proof.
  intros Hfc1 Hfc2.
  assert (Hc : forall newpoly,
             emitted df1 df2 "symmetric_difference" newpoly
             = negb (emitted df1 df2 "intersection" newpoly)).
  { intros newpoly. rewrite !emitted_hit by assumption.
    now destruct (layer_hit df1 newpoly), (layer_hit df2 newpoly). }
  assert (Hf : List.filter (emitted df1 df2 "symmetric_difference") newpolys
               = List.filter (fun f => negb (emitted df1 df2 "intersection" f)) newpolys).
  { apply List.filter_ext. exact Hc. }
  split; [exact Hc|]. split; [exact Hf|].
  destruct (overlay_loop_rows df1 df2 "symmetric_difference" newpolys [] Hfc1 Hfc2)
    as (sym & Hs & Hsr).
  destruct (overlay_loop_rows df1 df2 "intersection" newpolys [] Hfc1 Hfc2)
    as (int & Hi & Hir).
  exists sym, int. split; [exact Hs|]. split; [exact Hi|].
  apply Forall2_length in Hsr, Hir. rewrite <- Hsr, <- Hir, Hf.
  rewrite Nat.add_comm. apply filter_complement_length.
Qed.

(** C8. An included candidate loses every entry under the geometry column
    name of layer 1 and every entry under that of layer 2; when the second
    name is no longer in the record (as when both layers use the same name)
    the [ValueError] of the second drop is passed over and the row is
    completed all the same. *)
Theorem geometry_columns_dropped gcol1 gcol2 (prop1 prop2 : Series Ring) newpoly :
  (gcol1 ∈ labels (concat prop1 prop2) ->
   exists dropped1 row,
     Series_drop gcol1 (concat prop1 prop2) = Ok dropped1
     /\ (gcol2 = gcol1 -> gcol2 ∉ labels dropped1)
     /\ (gcol2 ∉ labels dropped1 ->
         Series_drop gcol2 dropped1 = Raise (ValueError drop_msg))
     /\ out_row gcol1 gcol2 prop1 prop2 newpoly = Ok row
     /\ row = Series_setitem "geometry" (VGeom (Polygon newpoly))
                (kept gcol1 gcol2 (concat prop1 prop2))
     /\ (forall c, c <> "geometry" -> c = gcol1 \/ c = gcol2 -> c ∉ labels row)
     /\ (forall c, c <> "geometry" -> c <> gcol1 -> c <> gcol2 ->
           Series_get row c = Series_get (concat prop1 prop2) c))
  /\ (forall df1 df2 how row,
        feature_collection df1 = true ->
        feature_collection df2 = true ->
        overlay_face df1 df2 how newpoly = Ok (Some row) ->
        forall c, c <> "geometry" ->
                  c = _geometry_column_name df1 \/ c = _geometry_column_name df2 ->
                  c ∉ labels row).
Proof.
  split.
  - intros Hin. eexists _, _. split.
    { unfold Series_drop. now rewrite (bool_decide_eq_true_2 _ Hin). }
    split.
    { intros ->. apply dropped_label_absent. }
    split.
    { intros Hout. unfold Series_drop. now rewrite (bool_decide_eq_false_2 _ Hout). }
    split; [now apply out_row_ok|]. split; [reflexivity|]. split.
    + intros c Hg Hc. rewrite setitem_labels, kept_labels. intros [?|(_ & ? & ?)].
      * contradiction.
      * destruct Hc; contradiction.
    + intros c Hg H1 H2.
      now rewrite Series_get_setitem_other, Series_get_kept.
  - intros df1 df2 how row Hfc1 Hfc2 Hrow c Hg Hc.
    rewrite (overlay_face_record _ _ _ _ Hfc1 Hfc2) in Hrow.
    destruct (overlay_hit how _ _); [|discriminate]. injection Hrow as <-.
    rewrite setitem_labels, kept_labels. intros [?|(_ & ? & ?)].
    + contradiction.
    + destruct Hc; contradiction.
Qed.

Lemma existsb_false_find {A : Type} (f : A -> bool) (l : list A) :
  existsb f l = false -> List.find f l = None.
Proof.
  induction l as [|x l IH]; [reflexivity|]. simpl.
  destruct (f x); [discriminate|exact IH].
Qed.

Lemma layer_unhit_record df newpoly :
  layer_hit df newpoly = false -> face_record df newpoly = fromkeys (columns df) [].
Proof.
  unfold layer_hit, face_record. intros H.
  now rewrite (existsb_false_find _ _ H).
Qed.

Lemma face_record_get_absent df newpoly c :
  feature_collection df = true -> c ∉ columns df ->
  Series_get (face_record df newpoly) c = [].
Proof.
  intros Hfc Hc. apply Series_get_absent.
  now rewrite (face_record_labels _ _ _ Hfc).
Qed.

Lemma null_record_get cols c :
  c ∈ cols -> Series_get (fromkeys (R := Ring) cols []) c = [VNone].
Proof.
  intros Hc. rewrite Series_get_fromkeys.
  rewrite bool_decide_eq_false_2 by set_solver.
  now rewrite bool_decide_eq_true_2.
Qed.

(** C2. The scan of a layer goes through its features in collection order
    and ends at the first one whose geometry the representative point of
    the face intersects: that feature is the hit record and [df_hit] is
    true; when no feature does, [df_hit] is false and the record is the
    null record, which holds [None] under every column of the layer, and
    these [None] are what the output row carries for the layer.  Layer 2
    is scanned in the same way, whatever layer 1 gave. *)
Theorem first_match_and_null_record df1 df2 how newpoly :
  feature_collection df1 = true ->
  feature_collection df2 = true ->
  (exists h1 p1 h2 p2,
     first_hit (representative_point newpoly) (iterrows df1) = Ok (h1, p1)
     /\ first_match (representative_point newpoly) (iterrows df1) h1 p1
     /\ first_hit (representative_point newpoly) (iterrows df2) = Ok (h2, p2)
     /\ first_match (representative_point newpoly) (iterrows df2) h2 p2
     /\ h1 = layer_hit df1 newpoly
     /\ h2 = layer_hit df2 newpoly
     /\ (forall pre r post,
           (forall r', r' ∈ pre ->
                       is_Some (row_geometry (snd r'))
                       /\ contains_point (representative_point newpoly) r' = false) ->
           contains_point (representative_point newpoly) r = true ->
           first_hit (representative_point newpoly) (pre ++ r :: post)
           = Ok (true, Some (snd r)))
     /\ (h1 = false -> forall c, c ∈ columns df1 -> Series_get (gather df1 p1) c = [VNone])
     /\ (h2 = false -> forall c, c ∈ columns df2 -> Series_get (gather df2 p2) c = [VNone])
     /\ overlay_face df1 df2 how newpoly
        = Ok (if overlay_hit how h1 h2
              then Some (Series_setitem "geometry" (VGeom (Polygon newpoly))
                           (kept (_geometry_column_name df1) (_geometry_column_name df2)
                              (concat (gather df1 p1) (gather df2 p2))))
              else None))
  /\ forall row,
       overlay_face df1 df2 how newpoly = Ok (Some row) ->
       (layer_hit df1 newpoly = false ->
        forall c, c ∈ columns df1 -> c <> _geometry_column_name df1 ->
                  c <> _geometry_column_name df2 -> c <> "geometry" ->
                  head (Series_get row c) = Some VNone
                  /\ (c ∉ columns df2 -> Series_get row c = [VNone]))
       /\ (layer_hit df2 newpoly = false ->
           forall c, c ∈ columns df2 -> c <> _geometry_column_name df1 ->
                     c <> _geometry_column_name df2 -> c <> "geometry" ->
                     last (Series_get row c) = Some VNone
                     /\ (c ∉ columns df1 -> Series_get row c = [VNone])).
Proof.
  intros Hfc1 Hfc2. split.
  - destruct (first_hit_scan (representative_point newpoly) (iterrows df1)
                (feature_collection_rows _ Hfc1)) as (h1 & p1 & Hs1 & Hm1 & Hh1 & Hp1).
    destruct (first_hit_scan (representative_point newpoly) (iterrows df2)
                (feature_collection_rows _ Hfc2)) as (h2 & p2 & Hs2 & Hm2 & Hh2 & Hp2).
    exists h1, p1, h2, p2.
    split; [exact Hs1|]. split; [exact Hm1|]. split; [exact Hs2|].
    split; [exact Hm2|]. split; [exact Hh1|]. split; [exact Hh2|].
    split; [intros pre r post; apply first_hit_stops|].
    repeat split.
    + intros Hf c Hc. subst h1 p1.
      rewrite (existsb_false_find _ _ Hf). simpl. now apply null_record_get.
    + intros Hf c Hc. subst h2 p2.
      rewrite (existsb_false_find _ _ Hf). simpl. now apply null_record_get.
    + rewrite (overlay_face_record _ _ _ _ Hfc1 Hfc2). now subst.
  - intros row Hrow. rewrite (overlay_face_record _ _ _ _ Hfc1 Hfc2) in Hrow.
    destruct (overlay_hit how _ _); [|discriminate]. injection Hrow as <-.
    split; intros Hf c Hc Hg1 Hg2 Hg.
    + rewrite Series_get_setitem_other, Series_get_kept by assumption.
      unfold concat. rewrite Series_get_app, (layer_unhit_record _ _ Hf).
      rewrite (null_record_get _ _ Hc). split; [reflexivity|].
      intros Hc2. now rewrite (face_record_get_absent _ _ _ Hfc2 Hc2).
    + rewrite Series_get_setitem_other, Series_get_kept by assumption.
      unfold concat. rewrite Series_get_app, (layer_unhit_record _ _ Hf).
      rewrite (null_record_get _ _ Hc). split; [apply last_snoc|].
      intros Hc1. now rewrite (face_record_get_absent _ _ _ Hfc1 Hc1).
Qed.

(** ** The index clean-up *)

Lemma overlay_finish_columns (collection : list (Series Ring)) gdf :
  overlay_finish collection = Ok gdf ->
  exists gdf0,
    GeoDataFrame_of collection = inr gdf0
    /\ columns gdf
       = List.filter (fun c => negb (String.eqb c "index"))
           ((if bool_decide ("index" ∈ columns gdf0) then "level_0" else "index")
              :: columns gdf0)
    /\ iterrows gdf
       = map (fun r => (fst r, List.filter (fun kv => negb (String.eqb (fst kv) "index"))
                                 (snd r)))
           (imap (fun i r => (VInt (Z.of_nat i),
                              ((if bool_decide ("index" ∈ columns gdf0)
                                then "level_0" else "index"), fst r) :: snd r))
                 (iterrows gdf0)).
Proof.
  unfold overlay_finish. intros H.
  destruct (GeoDataFrame_of collection) as [d|gdf0]; [discriminate|]. simpl in H.
  exists gdf0. split; [reflexivity|].
  unfold reset_index in H.
  destruct (bool_decide (_ ∈ columns gdf0)); [discriminate|]. simpl in H.
  unfold DataFrame_drop in H.
  destruct (bool_decide ("index" ∈ _)); [|discriminate].
  injection H as <-. simpl. split; reflexivity.
Qed.

Lemma filtered_label_gone (label c : string) (l : list string) :
  c ∈ List.filter (fun c => negb (String.eqb c label)) l -> c <> label.
Proof.
  rewrite list_elem_of_In, List.filter_In. intros [_ H] ->.
  now rewrite String.eqb_refl in H.
Qed.

Lemma overlay_finish_no_index (collection : list (Series Ring)) gdf :
  overlay_finish collection = Ok gdf ->
  ("index" ∉ columns gdf)
  /\ forall r, r ∈ iterrows gdf -> "index" ∉ labels (snd r).
Proof.
  intros H. destruct (overlay_finish_columns _ _ H) as (gdf0 & _ & Hc & Hr).
  split.
  - rewrite Hc. intros Hin. now apply filtered_label_gone in Hin.
  - intros r. rewrite Hr, list_elem_of_fmap. intros (r0 & -> & _). simpl.
    unfold labels. rewrite list_elem_of_fmap. intros ([l v] & Hl & Hin).
    simpl in Hl. subst l.
    apply list_elem_of_In, List.filter_In in Hin as [_ Hin].
    simpl in Hin. discriminate Hin.
Qed.

Lemma overlay_ok_finish df1 df2 how gdf :
  overlay df1 df2 how = Ok gdf ->
  exists collection, overlay_finish collection = Ok gdf.
Proof.
  unfold overlay. destruct (negb _); [discriminate|]. intros H.
  bind_cases H; [|discriminate]. bind_cases H; [|discriminate].
  bind_cases H; [|discriminate]. unfold overlay_faces in H.
  bind_cases H; [|discriminate]. eauto.
Qed.

Lemma attribute_column_announced df1 df2 c :
  c ∈ attribute_columns df1 \/ c ∈ attribute_columns df2 ->
  c ∈ announced_schema df1 df2.
Proof. unfold announced_schema. rewrite !elem_of_app. tauto. Qed.

(** C10. Whatever [overlay] returns has no column named [index]: the
    clean-up that resets the index and drops the column [index] drops with
    it every column of that name that came from the rows.  Hence, when a
    layer has an attribute column named [index], the schema of the output
    is not the announced union of the attribute columns of both layers and
    [geometry]: that column is in the union and not in the output, and no
    error is raised for it. *)
Theorem index_column_lost df1 df2 how gdf :
  overlay df1 df2 how = Ok gdf ->
  ("index" ∉ columns gdf)
  /\ (forall r, r ∈ iterrows gdf -> "index" ∉ labels (snd r))
  /\ (exists collection gdf0,
        overlay_finish collection = Ok gdf
        /\ GeoDataFrame_of collection = inr gdf0
        /\ columns gdf
           = List.filter (fun c => negb (String.eqb c "index"))
               ((if bool_decide ("index" ∈ columns gdf0) then "level_0" else "index")
                  :: columns gdf0))
  /\ ("index" ∈ attribute_columns df1 \/ "index" ∈ attribute_columns df2 ->
      "index" ∈ announced_schema df1 df2
      /\ columns gdf <> announced_schema df1 df2).
Proof.
  intros H. destruct (overlay_ok_finish _ _ _ _ H) as (collection & Hf).
  destruct (overlay_finish_no_index _ _ Hf) as [Hc Hr].
  split; [exact Hc|]. split; [exact Hr|]. split.
  - destruct (overlay_finish_columns _ _ Hf) as (gdf0 & Hg & Hcols & _).
    exists collection, gdf0. split; [exact Hf|]. split; [exact Hg|exact Hcols].
  - intros Hattr. apply attribute_column_announced in Hattr.
    split; [exact Hattr|]. intros Heq. apply Hc. now rewrite Heq.
Qed.

(** ** Ring extraction and the store *)

Lemma alloc_extends g (h : store) : h ⊆ snd (alloc g h).
Proof.
  unfold alloc. simpl. apply insert_subseteq, not_elem_of_dom, is_fresh.
Qed.

Lemma append_rings_st_spec rings poly (h : store) :
  fst (append_rings_st rings poly h) = append_rings rings poly
  /\ h ⊆ snd (append_rings_st rings poly h)
  /\ (is_valid poly = true -> snd (append_rings_st rings poly h) = h).
Proof.
  unfold append_rings_st, append_rings.
  destruct (is_valid poly); simpl.
  - repeat split; reflexivity.
  - split; [reflexivity|]. split; [apply alloc_extends|discriminate].
Qed.

Lemma append_all_st_spec geoms rings (h : store) :
  fst (append_all_st rings geoms h) = append_all rings geoms
  /\ h ⊆ snd (append_all_st rings geoms h)
  /\ (forallb is_valid geoms = true -> snd (append_all_st rings geoms h) = h).
Proof.
  revert rings h. induction geoms as [|poly geoms IH]; intros rings h;
    cbn [append_all_st append_all forallb].
  - repeat split; reflexivity.
  - destruct (append_rings_st_spec rings poly h) as (Hv & He & Hs).
    destruct (append_rings_st rings poly h) as [r h']. cbn [fst snd] in Hv, He, Hs.
    rewrite <- Hv. destruct r as [rings'|e]; cbn [bind].
    + destruct (IH rings' h') as (Hv' & He' & Hs'). split; [exact Hv'|]. split.
      * etransitivity; [exact He|exact He'].
      * intros Hvalid. apply andb_prop in Hvalid as [Hp Hvalid].
        rewrite (Hs' Hvalid). exact (Hs Hp).
    + split; [reflexivity|]. split; [exact He|].
      intros Hvalid. apply andb_prop in Hvalid as [Hp _]. exact (Hs Hp).
Qed.

Lemma extract_feature_st_spec geom rings (h : store) :
  fst (extract_feature_st geom rings h) = extract_feature geom rings
  /\ h ⊆ snd (extract_feature_st geom rings h)
  /\ (valid_geometry geom = true -> snd (extract_feature_st geom rings h) = h).
Proof.
  unfold extract_feature_st, extract_feature, valid_geometry.
  destruct (negb _); [repeat split; reflexivity|].
  destruct geom as [p|geoms|k];
    cbn [has_geoms constituent_polygons forallb].
  - destruct (append_rings_st_spec rings p h) as (Hv & He & Hs).
    split; [exact Hv|]. split; [exact He|].
    intros Hp. rewrite andb_true_r in Hp. now apply Hs.
  - apply append_all_st_spec.
  - destruct k; repeat split; reflexivity.
Qed.

Lemma extract_loop_st_extends col rings (h : store) :
  h ⊆ snd (extract_loop_st col rings h).
Proof.
  revert rings h. induction col as [|l col IH]; intros rings h; simpl; [reflexivity|].
  destruct (h !! l) as [geom|]; [|reflexivity].
  destruct (extract_feature_st_spec geom rings h) as (_ & He & _).
  destruct (extract_feature_st geom rings h) as [[rings'|e] h']; simpl in *.
  - etransitivity; [exact He|apply IH].
  - exact He.
Qed.

Lemma extract_loop_st_valid col rings (h : store) :
  valid_column h col = true -> snd (extract_loop_st col rings h) = h.
Proof.
  revert rings. induction col as [|l col IH]; intros rings; simpl; [reflexivity|].
  intros Hv. apply andb_prop in Hv as [Hl Hv].
  destruct (h !! l) as [geom|]; [|reflexivity].
  destruct (extract_feature_st_spec geom rings h) as (_ & _ & Hs).
  specialize (Hs Hl).
  destruct (extract_feature_st geom rings h) as [[rings'|e] h']; simpl in *; subst h'.
  - now apply IH.
  - reflexivity.
Qed.

Lemma extract_loop_st_agree col rings (h h2 : store) :
  (forall l, l ∈ col -> is_Some (h !! l) /\ h2 !! l = h !! l) ->
  fst (extract_loop_st col rings h2) = fst (extract_loop_st col rings h).
Proof.
  revert rings h h2. induction col as [|l col IH]; intros rings h h2 Hagree; simpl.
  - reflexivity.
  - destruct (Hagree l) as [[geom Hl] Hl2]; [left|].
    rewrite Hl2, Hl.
    destruct (extract_feature_st_spec geom rings h) as (Hv & He & _).
    destruct (extract_feature_st_spec geom rings h2) as (Hv2 & He2 & _).
    destruct (extract_feature_st geom rings h) as [r h'].
    destruct (extract_feature_st geom rings h2) as [r2 h2'].
    simpl in *. subst r r2.
    destruct (extract_feature geom rings) as [rings'|e]; [|reflexivity].
    apply IH. intros l' Hl'. destruct (Hagree l') as [[g' Hg'] Hg2']; [now right|].
    rewrite Hg' in Hg2'.
    rewrite (lookup_weaken _ _ _ _ Hg' He), (lookup_weaken _ _ _ _ Hg2' He2).
    split; [eauto|reflexivity].
Qed.

Lemma extract_loop_st_frame (feats : list (Value Ring * Series Ring)) col rings (h : store) :
  forallb (fun r => bool_decide (is_Some (row_geometry (snd r)))) feats = true ->
  Forall2 (fun l g => h !! l = Some g) col
          (omap (fun r => row_geometry (snd r)) feats) ->
  fst (extract_loop_st col rings h) = extract_loop feats rings.
Proof.
  revert col rings h. induction feats as [|[i feat] feats IH]; intros col rings h Hg Hcol.
  - simpl in Hcol. inversion Hcol. reflexivity.
  - simpl in Hg. apply andb_prop in Hg as [Hfeat Hg].
    apply bool_decide_eq_true in Hfeat as [g Hfeat]. simpl in Hfeat.
    simpl in Hcol. rewrite Hfeat in Hcol.
    inversion Hcol as [|l g' col' gs Hl Hcol']; subst. simpl.
    rewrite Hl, (row_geometry_access _ _ _ Hfeat). simpl.
    destruct (extract_feature_st_spec g rings h) as (Hv & He & _).
    destruct (extract_feature_st g rings h) as [r h']. simpl in *. subst r.
    destruct (extract_feature g rings) as [rings'|e]; simpl; [|reflexivity].
    apply IH; [exact Hg|].
    eapply Forall2_impl; [exact Hcol'|].
    intros l' g' Hl'. simpl in Hl'. exact (lookup_weaken _ _ _ _ Hl' He).
Qed.

(** C9. On a store in which the geometry column is live, ring extraction
    leaves every object of the store as it was (a repair allocates a new
    object and is used for the rings only), so that a second run on the
    store the first one leaves returns the same rings or the same error;
    on an already valid column the store is not touched at all and the
    second run is the first one again.  The rings are those of
    [_extract_rings] on the frame that holds these geometries. *)
Theorem extraction_repeatable col (h : store) :
  (forall l, l ∈ col -> is_Some (h !! l)) ->
  (forall l g, h !! l = Some g -> snd (_extract_rings_st col h) !! l = Some g)
  /\ fst (_extract_rings_st col (snd (_extract_rings_st col h)))
     = fst (_extract_rings_st col h)
  /\ (valid_column h col = true ->
      snd (_extract_rings_st col h) = h
      /\ _extract_rings_st col (snd (_extract_rings_st col h)) = _extract_rings_st col h)
  /\ (forall df,
        feature_collection df = true ->
        Forall2 (fun l g => h !! l = Some g) col (geometry_column df) ->
        fst (_extract_rings_st col h) = _extract_rings df).
Proof.
  intros Hlive. unfold _extract_rings_st.
  pose proof (extract_loop_st_extends col [] h) as He.
  split; [intros l g Hl; exact (lookup_weaken _ _ _ _ Hl He)|].
  split.
  { apply extract_loop_st_agree. intros l Hl. split; [now apply Hlive|].
    destruct (Hlive l Hl) as [g Hg]. rewrite Hg.
    exact (lookup_weaken _ _ _ _ Hg He). }
  split.
  { intros Hv. rewrite (extract_loop_st_valid _ _ _ Hv). split; reflexivity. }
  intros df Hfc Hcol. unfold _extract_rings.
  apply extract_loop_st_frame; [now apply feature_collection_rows|exact Hcol].
Qed.

(** * Further properties of the two functions *)

(** ** Ring extraction, feature by feature *)

(** X1. The rings of a collection made of the features of one collection
    followed by those of another are the rings of the first followed by
    the rings of the second; an error of the first part comes before any
    error of the second. *)
Theorem extract_rings_append df df1 df2 :
  iterrows df = iterrows df1 ++ iterrows df2 ->
  _extract_rings df
  = (rings1 <- _extract_rings df1 ;;
     rings2 <- _extract_rings df2 ;;
     Ok (rings1 ++ rings2)).
Proof.
  intros Hrows. unfold _extract_rings. rewrite Hrows, extract_loop_app.
  destruct (extract_loop (iterrows df1) []) as [r1|e]; simpl; [|reflexivity].
  apply extract_loop_acc.
Qed.

Lemma geometry_of_cells feat feat' missing :
  Series_get feat "geometry" = Series_get feat' "geometry" ->
  geometry_of feat missing = geometry_of feat' missing.
Proof. unfold geometry_of. now intros ->. Qed.

Lemma extract_loop_cells (feats feats' : list (Value Ring * Series Ring)) rings :
  map (fun r => Series_get (snd r) "geometry") feats
  = map (fun r => Series_get (snd r) "geometry") feats' ->
  extract_loop feats rings = extract_loop feats' rings.
Proof.
  revert feats' rings.
  induction feats as [|[i feat] feats IH]; intros [|[i' feat'] feats'] rings Hc;
    try discriminate Hc; [reflexivity|].
  simpl in Hc. injection Hc as Hfeat Hrest. simpl.
  rewrite (geometry_of_cells _ _ _ Hfeat).
  destruct (geometry_of feat' _) as [g|e]; simpl; [|reflexivity].
  destruct (extract_feature g rings) as [r|e]; simpl; [|reflexivity].
  now apply IH.
Qed.

(** X2. Ring extraction reads nothing of a frame but what its rows hold
    under the label [geometry]: two frames that agree there, row by row,
    give the same rings or the same error, whatever their other columns,
    their index labels and their designated geometry column names are. *)
Theorem extract_rings_geometry_cells df df' :
  map (fun r => Series_get (snd r) "geometry") (iterrows df)
  = map (fun r => Series_get (snd r) "geometry") (iterrows df') ->
  _extract_rings df = _extract_rings df'.
Proof. intros Hc. unfold _extract_rings. now apply extract_loop_cells. Qed.

(** X3. The first feature on which ring extraction fails decides its
    outcome, and the features after it are not looked at: once the features
    before it have been extracted, a geometry of another type than polygon
    and multi-polygon gives the [TypeError] of line 24, and a row with no
    geometry value gives an [AttributeError] (the one of [feat.geometry]
    when the row has no label [geometry] at all). *)
Theorem first_offending_feature df dfpre i feat post rings0 :
  iterrows df = iterrows dfpre ++ (i, feat) :: post ->
  _extract_rings dfpre = Ok rings0 ->
  (forall g, row_geometry feat = Some g -> polygonal g = false ->
             _extract_rings df = Raise (TypeError poly_msg))
  /\ (row_geometry feat = None ->
      exists name, _extract_rings df = Raise (AttributeError name))
  /\ ("geometry" ∉ labels feat ->
      _extract_rings df = Raise (AttributeError "geometry")).
Proof.
  intros Hrows Hpre. split; [|split].
  - intros g Hg Hp.
    exact (extract_rings_first_unsupported _ _ _ _ _ _ _ Hrows Hpre Hg Hp).
  - intros Hnone. rewrite (extract_rings_after _ _ _ _ _ _ Hrows Hpre).
    destruct (geometry_of feat (AttributeError "geometry")) as [g|e] eqn:E.
    + apply geometry_of_ok in E. congruence.
    + apply geometry_of_error in E as [_ [->| ->]]; simpl; eauto.
  - intros Hl. rewrite (extract_rings_after _ _ _ _ _ _ Hrows Hpre).
    unfold geometry_of. now rewrite (Series_get_absent _ _ Hl).
Qed.

(** X18. On a collection of polygons and multi-polygons in which every
    invalid polygon is repaired into one polygon, [_extract_rings] returns
    the flat sequence of rings: features in collection order, the
    constituent polygons of each in order, each replaced by its repair when
    invalid, and for each polygon the exterior ring followed by its
    interior rings. *)
Theorem extract_rings_sequence df :
  feature_collection df = true ->
  polygonal_collection df = true ->
  repairable_collection df = true ->
  _extract_rings df = Ok (collection_rings df)
  /\ collection_rings df
     = flat_map (fun g =>
                   flat_map (fun poly =>
                               flat_map (fun q => exterior q :: interiors q)
                                        (constituent_polygons (repaired poly)))
                            (constituent_polygons g))
                (geometry_column df).
Proof.
  intros Hfc Hp Hr. split; [now apply extract_rings_polygonal|reflexivity].
Qed.

(** ** The exceptions of [overlay] *)

Lemma extract_loop_ok_rows (feats : list (Value Ring * Series Ring)) rings rings' :
  extract_loop feats rings = Ok rings' ->
  forallb (fun r => bool_decide (is_Some (row_geometry (snd r)))) feats = true.
Proof.
  revert rings. induction feats as [|[i feat] feats IH]; intros rings; simpl.
  - reflexivity.
  - intros H. bind_cases H; [|discriminate]. bind_cases H; [|discriminate].
    apply geometry_of_ok in E. simpl. rewrite E.
    rewrite bool_decide_eq_true_2 by eauto. simpl. eapply IH, H.
Qed.

Lemma overlay_face_error_rows df1 df2 how newpoly e :
  forallb (fun r => bool_decide (is_Some (row_geometry (snd r)))) (iterrows df1) = true ->
  forallb (fun r => bool_decide (is_Some (row_geometry (snd r)))) (iterrows df2) = true ->
  overlay_face df1 df2 how newpoly = Raise e -> e = ValueError drop_msg.
Proof.
  intros H1 H2. unfold overlay_face.
  destruct (first_hit_scan (representative_point newpoly) _ H1) as (h1 & p1 & -> & _).
  destruct (first_hit_scan (representative_point newpoly) _ H2) as (h2 & p2 & -> & _).
  simpl. destruct (negb _); [discriminate|]. intros H.
  bind_cases H; [discriminate|]. injection H as <-. now apply out_row_error in E.
Qed.

Lemma overlay_loop_error_rows df1 df2 how newpolys collection e :
  forallb (fun r => bool_decide (is_Some (row_geometry (snd r)))) (iterrows df1) = true ->
  forallb (fun r => bool_decide (is_Some (row_geometry (snd r)))) (iterrows df2) = true ->
  overlay_loop df1 df2 how newpolys collection = Raise e -> e = ValueError drop_msg.
Proof.
  intros H1 H2. revert collection.
  induction newpolys as [|newpoly newpolys IH]; intros collection; simpl.
  - discriminate.
  - intros H. bind_cases H; [eapply IH, H|].
    injection H as <-. exact (overlay_face_error_rows _ _ _ _ _ H1 H2 E).
Qed.

Lemma reset_index_has_index (gdf0 gdf1 : GeoDataFrame Ring) :
  reset_index gdf0 = Ok gdf1 -> "index" ∈ columns gdf1.
Proof.
  unfold reset_index. destruct (bool_decide ("index" ∈ columns gdf0)) eqn:Hi.
  - destruct (bool_decide ("level_0" ∈ columns gdf0)); [discriminate|].
    intros [= <-]. simpl. right. now apply bool_decide_eq_true in Hi.
  - rewrite Hi. intros [= <-]. simpl. now left.
Qed.

Lemma overlay_finish_outcome (collection : list (Series Ring)) :
  (exists gdf, overlay_finish collection = Ok gdf)
  \/ (exists d, overlay_finish collection = Raise (KernelError d))
  \/ overlay_finish collection
     = Raise (ValueError "cannot insert level_0, already exists").
Proof.
  unfold overlay_finish.
  destruct (GeoDataFrame_of collection) as [d|gdf0]; simpl; [right; left; eauto|].
  destruct (reset_index gdf0) as [gdf1|e] eqn:Hr; simpl.
  - left. apply reset_index_has_index in Hr.
    unfold DataFrame_drop. rewrite (bool_decide_eq_true_2 _ Hr). eauto.
  - right. right. unfold reset_index in Hr.
    destruct (bool_decide ("index" ∈ columns gdf0)) eqn:Hi.
    + destruct (bool_decide ("level_0" ∈ columns gdf0)); [|discriminate].
      now injection Hr as <-.
    + rewrite Hi in Hr. discriminate.
Qed.

Lemma overlay_faces_error_rows df1 df2 how (mm : Network) e :
  forallb (fun r => bool_decide (is_Some (row_geometry (snd r)))) (iterrows df1) = true ->
  forallb (fun r => bool_decide (is_Some (row_geometry (snd r)))) (iterrows df2) = true ->
  overlay_faces df1 df2 how mm = Raise e ->
  (exists d, e = KernelError d)
  \/ e = ValueError drop_msg
  \/ e = ValueError "cannot insert level_0, already exists".
Proof.
  intros H1 H2. unfold overlay_faces. intros H. bind_cases H.
  - destruct (overlay_finish_outcome a) as [[gdf Hf]|[[d Hf]|Hf]];
      rewrite Hf in H; [discriminate| |]; injection H as <-; eauto.
  - injection H as <-. right. left.
    exact (overlay_loop_error_rows _ _ _ _ _ _ H1 H2 E).
Qed.

(** X4. The exceptions [overlay] can end in, and where each comes from:
    the [ValueError] of line 58 for a relation that is not recognized;
    otherwise the [TypeError] of line 24 or an [AttributeError] out of the
    ring extraction of layer 1, or of layer 2 once layer 1 was extracted;
    otherwise a failure of a collaborator, or a [ValueError] of a pandas
    [drop] or [insert].  A [KeyError] is never raised: the rows the
    classification loop reads under [geometry] were read by ring
    extraction before. *)
Theorem overlay_exceptions df1 df2 how e :
  overlay df1 df2 how = Raise e ->
  (((how ∉ allowed_hows) /\ e = ValueError (how_msg how))
   \/ (how ∈ allowed_hows
       /\ _extract_rings df1 = Raise e
       /\ (e = TypeError poly_msg \/ exists name, e = AttributeError name))
   \/ (how ∈ allowed_hows
       /\ (exists rings1, _extract_rings df1 = Ok rings1)
       /\ _extract_rings df2 = Raise e
       /\ (e = TypeError poly_msg \/ exists name, e = AttributeError name))
   \/ (how ∈ allowed_hows
       /\ (exists rings1 rings2,
             _extract_rings df1 = Ok rings1 /\ _extract_rings df2 = Ok rings2)
       /\ ((exists d, e = KernelError d)
           \/ e = ValueError drop_msg
           \/ e = ValueError "cannot insert level_0, already exists")))
  /\ forall key, e <> KeyError key.
Proof.
  intros H.
  assert (Hcases :
    ((how ∉ allowed_hows) /\ e = ValueError (how_msg how))
    \/ (how ∈ allowed_hows
        /\ _extract_rings df1 = Raise e
        /\ (e = TypeError poly_msg \/ exists name, e = AttributeError name))
    \/ (how ∈ allowed_hows
        /\ (exists rings1, _extract_rings df1 = Ok rings1)
        /\ _extract_rings df2 = Raise e
        /\ (e = TypeError poly_msg \/ exists name, e = AttributeError name))
    \/ (how ∈ allowed_hows
        /\ (exists rings1 rings2,
              _extract_rings df1 = Ok rings1 /\ _extract_rings df2 = Ok rings2)
        /\ ((exists d, e = KernelError d)
            \/ e = ValueError drop_msg
            \/ e = ValueError "cannot insert level_0, already exists"))).
  { unfold overlay in H. destruct (bool_decide (how ∈ allowed_hows)) eqn:Hin; simpl in H.
    - apply bool_decide_eq_true in Hin. right.
      destruct (_extract_rings df1) as [rings1|e1] eqn:E1; simpl in H.
      + destruct (_extract_rings df2) as [rings2|e2] eqn:E2; simpl in H.
        * right. right. split; [exact Hin|]. split; [eauto|].
          destruct (overlay_union rings1 rings2) as [mm|eu] eqn:Eu; simpl in H.
          -- eapply overlay_faces_error_rows; [| |exact H].
             ++ eapply extract_loop_ok_rows, E1.
             ++ eapply extract_loop_ok_rows, E2.
          -- injection H as <-. left.
             apply overlay_union_error in Eu as (d1 & d2 & _ & _ & ->). eauto.
        * injection H as <-. right. left. split; [exact Hin|]. split; [eauto|].
          split; [reflexivity|]. now apply extract_loop_error in E2.
      + injection H as <-. left. split; [exact Hin|]. split; [reflexivity|].
        now apply extract_loop_error in E1.
    - apply bool_decide_eq_false in Hin. injection H as <-. now left. }
  split; [exact Hcases|]. intros key ->.
  destruct Hcases as [[_ [=]]|[(_ & _ & [[=]|[n [=]]])|[(_ & _ & _ & [[=]|[n [=]]])
                     |(_ & _ & [[d [=]]|[[=]|[=]]])]]].
Qed.

Lemma overlay_finish_cases (collection : list (Series Ring)) :
  (exists d, GeoDataFrame_of collection = inl d
             /\ overlay_finish collection = Raise (KernelError d))
  \/ (exists gdf0, GeoDataFrame_of collection = inr gdf0
                   /\ "index" ∈ columns gdf0 /\ "level_0" ∈ columns gdf0
                   /\ overlay_finish collection
                      = Raise (ValueError "cannot insert level_0, already exists"))
  \/ (exists gdf0 gdf, GeoDataFrame_of collection = inr gdf0
                       /\ ~ ("index" ∈ columns gdf0 /\ "level_0" ∈ columns gdf0)
                       /\ overlay_finish collection = Ok gdf).
Proof.
  unfold overlay_finish.
  destruct (GeoDataFrame_of collection) as [d|gdf0]; simpl; [left; eauto|]. right.
  destruct (reset_index gdf0) as [gdf1|e] eqn:Hr; simpl.
  - right. exists gdf0. pose proof (reset_index_has_index _ _ Hr) as Hi.
    unfold DataFrame_drop. rewrite (bool_decide_eq_true_2 _ Hi).
    eexists. split; [reflexivity|]. split; [|reflexivity].
    intros [Hin Hl]. unfold reset_index in Hr.
    rewrite (bool_decide_eq_true_2 _ Hin), (bool_decide_eq_true_2 _ Hl) in Hr.
    discriminate.
  - left. exists gdf0. split; [reflexivity|]. unfold reset_index in Hr.
    destruct (bool_decide ("index" ∈ columns gdf0)) eqn:Hi.
    + destruct (bool_decide ("level_0" ∈ columns gdf0)) eqn:Hl; [|discriminate].
      apply bool_decide_eq_true in Hi, Hl. now injection Hr as <-.
    + rewrite Hi in Hr. discriminate.
Qed.

(** X5. Once the rings of two feature collections have been extracted,
    with a recognized relation, [overlay] fails in three cases only: both
    unions fail (the error is the pairwise one's); the frame constructor
    fails on the rows collected for the recovered faces; or the frame built
    from these rows has both a column [index] and a column [level_0].  In
    every other case it returns a frame. *)
Theorem overlay_after_extraction df1 df2 how rings1 rings2 :
  feature_collection df1 = true ->
  feature_collection df2 = true ->
  how ∈ allowed_hows ->
  _extract_rings df1 = Ok rings1 ->
  _extract_rings df2 = Ok rings2 ->
  (exists d1 d2,
     unary_union [rings1; rings2] = inl d1
     /\ binary_union rings1 rings2 = inl d2
     /\ overlay df1 df2 how = Raise (KernelError d2))
  \/ (exists mm collection,
        overlay_union rings1 rings2 = Ok mm
        /\ overlay_loop df1 df2 how (polygonize mm) [] = Ok collection
        /\ Forall2 (fun f row => overlay_face df1 df2 how f = Ok (Some row))
                   (List.filter (emitted df1 df2 how) (polygonize mm)) collection
        /\ ((exists d, GeoDataFrame_of collection = inl d
                       /\ overlay df1 df2 how = Raise (KernelError d))
            \/ (exists gdf0,
                  GeoDataFrame_of collection = inr gdf0
                  /\ "index" ∈ columns gdf0 /\ "level_0" ∈ columns gdf0
                  /\ overlay df1 df2 how
                     = Raise (ValueError "cannot insert level_0, already exists"))
            \/ (exists gdf0 gdf,
                  GeoDataFrame_of collection = inr gdf0
                  /\ ~ ("index" ∈ columns gdf0 /\ "level_0" ∈ columns gdf0)
                  /\ overlay df1 df2 how = Ok gdf))).
Proof.
  intros Hfc1 Hfc2 Hin H1 H2. rewrite (overlay_allowed _ _ _ Hin), H1, H2. simpl.
  destruct (overlay_union rings1 rings2) as [mm|e] eqn:Eu; simpl.
  - right. unfold overlay_faces.
    destruct (overlay_loop_rows df1 df2 how (polygonize mm) [] Hfc1 Hfc2)
      as (rows & Hl & Hrows).
    simpl in Hl. exists mm, rows. split; [reflexivity|]. split; [exact Hl|].
    split; [exact Hrows|]. rewrite Hl. simpl. apply overlay_finish_cases.
  - left. apply overlay_union_error in Eu as (d1 & d2 & Hu & Hb & ->). eauto.
Qed.

(** ** The relations against one another *)

Lemma empty_layer_unhit df newpoly :
  iterrows df = [] -> layer_hit df newpoly = false.
Proof. unfold layer_hit. now intros ->. Qed.

(** X6. Every face emitted under [intersection], [identity] or
    [difference] is emitted under [union], and [intersection] and
    [difference] are within [identity]; [symmetric_difference] is not
    within [union]: it emits, and [union] leaves out, exactly the faces
    that lie in no feature of either layer. *)
Theorem relations_within_union df1 df2 newpoly :
  feature_collection df1 = true ->
  feature_collection df2 = true ->
  (emitted df1 df2 "intersection" newpoly = true -> emitted df1 df2 "union" newpoly = true)
  /\ (emitted df1 df2 "identity" newpoly = true -> emitted df1 df2 "union" newpoly = true)
  /\ (emitted df1 df2 "difference" newpoly = true -> emitted df1 df2 "union" newpoly = true)
  /\ (emitted df1 df2 "intersection" newpoly = true ->
      emitted df1 df2 "identity" newpoly = true)
  /\ (emitted df1 df2 "difference" newpoly = true ->
      emitted df1 df2 "identity" newpoly = true)
  /\ (emitted df1 df2 "symmetric_difference" newpoly = true
      /\ emitted df1 df2 "union" newpoly = false
      <-> layer_hit df1 newpoly = false /\ layer_hit df2 newpoly = false).
Proof.
  intros Hfc1 Hfc2. rewrite !emitted_hit by assumption.
  destruct (layer_hit df1 newpoly), (layer_hit df2 newpoly); simpl;
    intuition congruence.
Qed.

(** X7. Face by face, [identity] is [intersection] together with
    [difference], which exclude each other; [union] is [intersection]
    together with the [difference] of the layers in both orders; and
    [union], [intersection] and [symmetric_difference] emit the same faces
    when the two layers are exchanged. *)
Theorem relations_decompose df1 df2 newpoly :
  feature_collection df1 = true ->
  feature_collection df2 = true ->
  emitted df1 df2 "identity" newpoly
  = emitted df1 df2 "intersection" newpoly || emitted df1 df2 "difference" newpoly
  /\ emitted df1 df2 "intersection" newpoly && emitted df1 df2 "difference" newpoly = false
  /\ emitted df1 df2 "union" newpoly
     = emitted df1 df2 "intersection" newpoly
       || emitted df1 df2 "difference" newpoly
       || emitted df2 df1 "difference" newpoly
  /\ emitted df1 df2 "union" newpoly = emitted df2 df1 "union" newpoly
  /\ emitted df1 df2 "intersection" newpoly = emitted df2 df1 "intersection" newpoly
  /\ emitted df1 df2 "symmetric_difference" newpoly
     = emitted df2 df1 "symmetric_difference" newpoly.
Proof.
  intros Hfc1 Hfc2. rewrite !emitted_hit by assumption.
  now destruct (layer_hit df1 newpoly), (layer_hit df2 newpoly).
Qed.

Lemma overlay_loop_nothing df1 df2 how newpolys :
  feature_collection df1 = true ->
  feature_collection df2 = true ->
  (forall newpoly, emitted df1 df2 how newpoly = false) ->
  overlay_loop df1 df2 how newpolys [] = Ok [].
Proof.
  intros Hfc1 Hfc2 Hnone.
  destruct (overlay_loop_rows df1 df2 how newpolys [] Hfc1 Hfc2) as (rows & -> & Hrows).
  assert (Hf : List.filter (emitted df1 df2 how) newpolys = []).
  { clear Hrows. induction newpolys as [|f fs IH]; [reflexivity|].
    simpl. now rewrite Hnone. }
  rewrite Hf in Hrows. now inversion Hrows.
Qed.

(** X8. A layer without features is hit by no face.  With an empty second
    layer, [identity], [difference] and [union] emit exactly the faces that
    lie in a feature of the first layer and [intersection] gives an empty
    collection; with an empty first layer, [intersection], [identity] and
    [difference] give an empty collection and [union] emits the faces that
    lie in a feature of the second.  [symmetric_difference] emits every
    face in both cases. *)
Theorem empty_layer df1 df2 newpolys :
  feature_collection df1 = true ->
  feature_collection df2 = true ->
  (iterrows df2 = [] ->
   (forall newpoly,
      emitted df1 df2 "identity" newpoly = layer_hit df1 newpoly
      /\ emitted df1 df2 "difference" newpoly = layer_hit df1 newpoly
      /\ emitted df1 df2 "union" newpoly = layer_hit df1 newpoly
      /\ emitted df1 df2 "symmetric_difference" newpoly = true)
   /\ overlay_loop df1 df2 "intersection" newpolys [] = Ok [])
  /\ (iterrows df1 = [] ->
      (forall newpoly,
         emitted df1 df2 "union" newpoly = layer_hit df2 newpoly
         /\ emitted df1 df2 "symmetric_difference" newpoly = true)
      /\ overlay_loop df1 df2 "intersection" newpolys [] = Ok []
      /\ overlay_loop df1 df2 "identity" newpolys [] = Ok []
      /\ overlay_loop df1 df2 "difference" newpolys [] = Ok []).
Proof.
  intros Hfc1 Hfc2. split; intros Hempty.
  - split.
    + intros newpoly. rewrite !emitted_hit by assumption.
      rewrite (empty_layer_unhit df2 newpoly Hempty).
      now destruct (layer_hit df1 newpoly).
    + apply overlay_loop_nothing; [assumption..|]. intros newpoly.
      rewrite emitted_hit by assumption.
      rewrite (empty_layer_unhit df2 newpoly Hempty).
      now destruct (layer_hit df1 newpoly).
  - split; [|repeat split].
    + intros newpoly. rewrite !emitted_hit by assumption.
      rewrite (empty_layer_unhit df1 newpoly Hempty).
      now destruct (layer_hit df2 newpoly).
    + apply overlay_loop_nothing; [assumption..|]. intros newpoly.
      rewrite emitted_hit by assumption.
      now rewrite (empty_layer_unhit df1 newpoly Hempty).
    + apply overlay_loop_nothing; [assumption..|]. intros newpoly.
      rewrite emitted_hit by assumption.
      now rewrite (empty_layer_unhit df1 newpoly Hempty).
    + apply overlay_loop_nothing; [assumption..|]. intros newpoly.
      rewrite emitted_hit by assumption.
      now rewrite (empty_layer_unhit df1 newpoly Hempty).
Qed.

(** ** The rows of the output *)

Lemma Series_get_present (s : Series Ring) c :
  c ∈ labels s -> Series_get s c <> [].
Proof.
  induction s as [|[l v] s IH]; simpl; [intros H; inversion H|].
  intros Hc. unfold Series_get in *. simpl.
  destruct (String.eqb_spec l c) as [->|Hne]; [discriminate|].
  apply elem_of_cons in Hc as [->|Hc]; [contradiction|]. now apply IH.
Qed.

Lemma Series_get_overwritten label v (s : Series Ring) w :
  w ∈ Series_get (map (fun kv : string * Value Ring =>
                         if String.eqb (fst kv) label then (label, v) else kv) s) label ->
  w = v.
Proof.
  induction s as [|[l u] s IH]; simpl; [intros H; inversion H|].
  unfold Series_get in *. simpl.
  destruct (String.eqb_spec l label) as [->|Hne]; simpl.
  - rewrite String.eqb_refl. simpl. intros H.
    apply elem_of_cons in H as [->|H]; [reflexivity|now apply IH].
  - destruct (String.eqb_spec l label); [contradiction|]. exact IH.
Qed.

Lemma overwritten_labels label v (s : Series Ring) :
  labels (map (fun kv : string * Value Ring =>
                 if String.eqb (fst kv) label then (label, v) else kv) s) = labels s.
Proof.
  induction s as [|[l w] s IH]; [reflexivity|]. simpl.
  destruct (String.eqb_spec l label) as [->|]; simpl; now rewrite IH.
Qed.

Lemma Series_get_setitem_same label v (s : Series Ring) :
  Series_get (Series_setitem label v s) label <> []
  /\ forall w, w ∈ Series_get (Series_setitem label v s) label -> w = v.
Proof.
  unfold Series_setitem. case_bool_decide as Hin.
  - split.
    + apply Series_get_present. now rewrite overwritten_labels.
    + apply Series_get_overwritten.
  - rewrite Series_get_app, (Series_get_absent _ _ Hin). unfold Series_get. simpl.
    rewrite String.eqb_refl. simpl. split; [discriminate|].
    intros w Hw. now apply list_elem_of_singleton in Hw.
Qed.

Lemma overlay_face_row df1 df2 how newpoly row :
  feature_collection df1 = true ->
  feature_collection df2 = true ->
  overlay_face df1 df2 how newpoly = Ok (Some row) ->
  row = Series_setitem "geometry" (VGeom (Polygon newpoly))
          (kept (_geometry_column_name df1) (_geometry_column_name df2)
             (concat (face_record df1 newpoly) (face_record df2 newpoly))).
Proof.
  intros Hfc1 Hfc2 Hrow. rewrite (overlay_face_record _ _ _ _ Hfc1 Hfc2) in Hrow.
  destruct (overlay_hit how _ _); [|discriminate]. now injection Hrow as <-.
Qed.

(** X9. The row of an included face holds the face, and nothing else,
    under [geometry]; when one of the layers has [geometry] as the name of
    its geometry column, the face is the one entry under that label and the
    last entry of the row, so that no geometry of the layers is retained
    under it. *)
Theorem output_row_geometry df1 df2 how newpoly row :
  feature_collection df1 = true ->
  feature_collection df2 = true ->
  overlay_face df1 df2 how newpoly = Ok (Some row) ->
  Series_get row "geometry" <> []
  /\ (forall v, v ∈ Series_get row "geometry" -> v = VGeom (Polygon newpoly))
  /\ (_geometry_column_name df1 = "geometry" \/ _geometry_column_name df2 = "geometry" ->
      Series_get row "geometry" = [VGeom (Polygon newpoly)]
      /\ exists attrs,
           row = attrs ++ [("geometry", VGeom (Polygon newpoly))]
           /\ ("geometry" ∉ labels attrs)).
Proof.
  intros Hfc1 Hfc2 Hrow. rewrite (overlay_face_row _ _ _ _ _ Hfc1 Hfc2 Hrow).
  split; [apply Series_get_setitem_same|]. split; [apply Series_get_setitem_same|].
  intros Hg.
  assert (Hout : "geometry" ∉ labels (kept (_geometry_column_name df1)
                                         (_geometry_column_name df2)
                                         (concat (face_record df1 newpoly)
                                                 (face_record df2 newpoly)))).
  { rewrite kept_labels. intros (_ & H1 & H2). destruct Hg as [Hg|Hg]; congruence. }
  unfold Series_setitem. rewrite (bool_decide_eq_false_2 _ Hout). split.
  - rewrite Series_get_app, (Series_get_absent _ _ Hout). reflexivity.
  - eexists. split; [reflexivity|exact Hout].
Qed.

Lemma attribute_columns_elem df c :
  c ∈ attribute_columns df <-> c ∈ columns df /\ c <> _geometry_column_name df.
Proof.
  unfold attribute_columns. rewrite list_elem_of_In, List.filter_In, <- list_elem_of_In.
  destruct (String.eqb_spec c (_geometry_column_name df)); simpl; intuition congruence.
Qed.

Lemma output_row_labels df1 df2 how newpoly row c :
  feature_collection df1 = true ->
  feature_collection df2 = true ->
  overlay_face df1 df2 how newpoly = Ok (Some row) ->
  c ∈ labels row
  <-> c = "geometry"
      \/ ((c ∈ columns df1 \/ c ∈ columns df2)
          /\ c <> _geometry_column_name df1 /\ c <> _geometry_column_name df2).
Proof.
  intros Hfc1 Hfc2 Hrow. rewrite (overlay_face_row _ _ _ _ _ Hfc1 Hfc2 Hrow).
  rewrite setitem_labels, kept_labels. unfold concat, labels at 1.
  rewrite map_app, elem_of_app.
  fold (labels (face_record df1 newpoly)) (labels (face_record df2 newpoly)).
  rewrite (face_record_labels _ _ _ Hfc1), (face_record_labels _ _ _ Hfc2).
  reflexivity.
Qed.

(** X10. The labels of the row of an included face are [geometry] and the
    columns of either layer that are named like the geometry column of
    neither; they do not depend on the face, so that all the rows of one
    call have the same labels.  When both layers name their geometry column
    alike, these are the labels of the announced schema. *)
Theorem output_row_schema df1 df2 how newpoly row :
  feature_collection df1 = true ->
  feature_collection df2 = true ->
  overlay_face df1 df2 how newpoly = Ok (Some row) ->
  (forall c,
     c ∈ labels row
     <-> c = "geometry"
         \/ ((c ∈ columns df1 \/ c ∈ columns df2)
             /\ c <> _geometry_column_name df1 /\ c <> _geometry_column_name df2))
  /\ (forall newpoly' row' c,
        overlay_face df1 df2 how newpoly' = Ok (Some row') ->
        c ∈ labels row <-> c ∈ labels row')
  /\ (_geometry_column_name df1 = _geometry_column_name df2 ->
      forall c, c ∈ labels row <-> c ∈ announced_schema df1 df2).
Proof.
  intros Hfc1 Hfc2 Hrow. split; [|split].
  - intros c. now apply (output_row_labels df1 df2 how newpoly).
  - intros newpoly' row' c Hrow'.
    rewrite (output_row_labels _ _ _ _ _ c Hfc1 Hfc2 Hrow).
    now rewrite (output_row_labels _ _ _ _ _ c Hfc1 Hfc2 Hrow').
  - intros Hsame c. rewrite (output_row_labels _ _ _ _ _ c Hfc1 Hfc2 Hrow).
    unfold announced_schema. rewrite !elem_of_app, !attribute_columns_elem.
    rewrite list_elem_of_singleton, Hsame. tauto.
Qed.

Lemma find_first {A : Type} (f : A -> bool) (pre post : list A) (x : A) :
  (forall y, y ∈ pre -> f y = false) -> f x = true ->
  List.find f (pre ++ x :: post) = Some x.
Proof.
  intros Hpre Hx. induction pre as [|y pre IH]; simpl.
  - now rewrite Hx.
  - rewrite (Hpre y) by now left. apply IH. intros z Hz. apply Hpre. now right.
Qed.

Lemma feature_collection_row_labels df r :
  feature_collection df = true -> r ∈ iterrows df -> labels (snd r) = columns df.
Proof.
  unfold feature_collection. intros Hfc Hr. apply andb_prop in Hfc as [_ Hrows].
  rewrite forallb_forall in Hrows. apply list_elem_of_In in Hr.
  specialize (Hrows r Hr). apply andb_prop in Hrows as [Hl _].
  now apply bool_decide_eq_true in Hl.
Qed.

Lemma head_app_present {A : Type} (l1 l2 : list A) :
  l1 <> [] -> head (l1 ++ l2) = head l1.
Proof. now destruct l1. Qed.

Lemma last_app_present {A : Type} (l1 l2 : list A) :
  l2 <> [] -> last (l1 ++ l2) = last l2.
Proof.
  intros Hne. destruct l2 as [|x l2] using rev_ind; [contradiction|].
  now rewrite app_assoc, !last_snoc.
Qed.

(** X11. The row of an included face carries the attributes of the hit
    features: under every column of layer 1 that is kept, the first value
    of the row is the value of the first feature of layer 1 that contains
    the representative point (and the only value, when layer 2 has no
    column of that name); likewise the last value under a column of layer 2
    is that of the first hit feature of layer 2. *)
Theorem hit_attributes_carried df1 df2 how newpoly row :
  feature_collection df1 = true ->
  feature_collection df2 = true ->
  overlay_face df1 df2 how newpoly = Ok (Some row) ->
  (forall pre r post c,
     iterrows df1 = pre ++ r :: post ->
     (forall r', r' ∈ pre -> contains_point (representative_point newpoly) r' = false) ->
     contains_point (representative_point newpoly) r = true ->
     c ∈ columns df1 ->
     c <> _geometry_column_name df1 -> c <> _geometry_column_name df2 ->
     c <> "geometry" ->
     head (Series_get row c) = head (Series_get (snd r) c)
     /\ (c ∉ columns df2 -> Series_get row c = Series_get (snd r) c))
  /\ (forall pre r post c,
        iterrows df2 = pre ++ r :: post ->
        (forall r', r' ∈ pre -> contains_point (representative_point newpoly) r' = false) ->
        contains_point (representative_point newpoly) r = true ->
        c ∈ columns df2 ->
        c <> _geometry_column_name df1 -> c <> _geometry_column_name df2 ->
        c <> "geometry" ->
        last (Series_get row c) = last (Series_get (snd r) c)
        /\ (c ∉ columns df1 -> Series_get row c = Series_get (snd r) c)).
Proof.
  intros Hfc1 Hfc2 Hrow. rewrite (overlay_face_row _ _ _ _ _ Hfc1 Hfc2 Hrow).
  split; intros pre r post c Hrows Hpre Hr Hc Hg1 Hg2 Hg;
    rewrite Series_get_setitem_other, Series_get_kept by assumption;
    unfold concat; rewrite Series_get_app.
  - assert (Hrec : face_record df1 newpoly = snd r).
    { unfold face_record. now rewrite Hrows, (find_first _ _ _ _ Hpre Hr). }
    assert (Hin : r ∈ iterrows df1) by (rewrite Hrows; set_solver).
    rewrite Hrec. split.
    + apply head_app_present, Series_get_present.
      now rewrite (feature_collection_row_labels _ _ Hfc1 Hin).
    + intros Hc2. rewrite (face_record_get_absent _ _ _ Hfc2 Hc2). apply app_nil_r.
  - assert (Hrec : face_record df2 newpoly = snd r).
    { unfold face_record. now rewrite Hrows, (find_first _ _ _ _ Hpre Hr). }
    assert (Hin : r ∈ iterrows df2) by (rewrite Hrows; set_solver).
    rewrite Hrec. split.
    + apply last_app_present, Series_get_present.
      now rewrite (feature_collection_row_labels _ _ Hfc2 Hin).
    + intros Hc1. now rewrite (face_record_get_absent _ _ _ Hfc1 Hc1).
Qed.

(** ** The index clean-up, column by column *)

Lemma cleaned_row_lookup (name : string) (rows : list (Value Ring * Series Ring)) i :
  map (fun r => (fst r, List.filter (fun kv => negb (String.eqb (fst kv) "index")) (snd r)))
      (imap (fun i r => (VInt (Z.of_nat i), (name, fst r) :: snd r)) rows) !! i
  = match rows !! i with
    | Some r0 =>
        Some (@VInt Ring (Z.of_nat i),
              List.filter (fun kv => negb (String.eqb (fst kv) "index"))
                          ((name, fst r0) :: snd r0))
    | None => None
    end.
Proof.
  change (map ?f ?l) with (f <$> l). unfold Series in *.
  rewrite list_lookup_fmap, list_lookup_imap. now destruct (rows !! i).
Qed.

Lemma cleaned_row_at (name : string) (rows : list (Value Ring * Series Ring)) i r0 :
  rows !! i = Some r0 ->
  map (fun r => (fst r, List.filter (fun kv => negb (String.eqb (fst kv) "index")) (snd r)))
      (imap (fun i r => (VInt (Z.of_nat i), (name, fst r) :: snd r)) rows) !! i
  = Some (@VInt Ring (Z.of_nat i),
          List.filter (fun kv => negb (String.eqb (fst kv) "index"))
                      ((name, fst r0) :: snd r0)).
Proof. intros Hr. rewrite cleaned_row_lookup. unfold Series in *. now rewrite Hr. Qed.

Lemma cleaned_rows_length (name : string) (rows : list (Value Ring * Series Ring)) :
  length (map (fun r => (fst r, List.filter (fun kv => negb (String.eqb (fst kv) "index"))
                                  (snd r)))
              (imap (fun i r => (@VInt Ring (Z.of_nat i), (name, fst r) :: snd r)) rows))
  = length rows.
Proof. now rewrite length_map, length_imap. Qed.

Lemma overlay_ok_trace df1 df2 how gdf :
  overlay df1 df2 how = Ok gdf ->
  exists rings1 rings2 mm collection,
    _extract_rings df1 = Ok rings1
    /\ _extract_rings df2 = Ok rings2
    /\ overlay_union rings1 rings2 = Ok mm
    /\ overlay_loop df1 df2 how (polygonize mm) [] = Ok collection
    /\ overlay_finish collection = Ok gdf.
Proof.
  unfold overlay. destruct (negb _); [discriminate|]. intros H.
  bind_cases H; [|discriminate]. bind_cases H; [|discriminate].
  bind_cases H; [|discriminate]. unfold overlay_faces in H.
  bind_cases H; [|discriminate]. eexists _, _, _, _. eauto.
Qed.

(** X12. The frame [overlay] returns has as many rows as the frame the
    constructor built from the rows collected for the recovered faces, and
    its index is the plain sequence 0, 1, 2, ... in row order. *)
Theorem output_index_sequential df1 df2 how gdf :
  overlay df1 df2 how = Ok gdf ->
  (forall i r, iterrows gdf !! i = Some r -> fst r = VInt (Z.of_nat i))
  /\ exists rings1 rings2 mm collection gdf0,
       _extract_rings df1 = Ok rings1
       /\ _extract_rings df2 = Ok rings2
       /\ overlay_union rings1 rings2 = Ok mm
       /\ overlay_loop df1 df2 how (polygonize mm) [] = Ok collection
       /\ GeoDataFrame_of collection = inr gdf0
       /\ length (iterrows gdf) = length (iterrows gdf0).
Proof.
  intros H.
  destruct (overlay_ok_trace _ _ _ _ H) as (rings1 & rings2 & mm & collection
                                            & H1 & H2 & Hu & Hl & Hf).
  destruct (overlay_finish_columns _ _ Hf) as (gdf0 & Hg & _ & Hrows).
  split.
  - intros i r. rewrite Hrows, cleaned_row_lookup.
    destruct (iterrows gdf0 !! i); [|discriminate]. now intros [= <-].
  - exists rings1, rings2, mm, collection, gdf0. repeat (split; [assumption|]).
    rewrite Hrows. apply cleaned_rows_length.
Qed.

Lemma filter_strings_absent (label : string) (l : list string) :
  label ∉ l -> List.filter (fun c => negb (String.eqb c label)) l = l.
Proof.
  induction l as [|c l IH]; [reflexivity|]. simpl. intros Hl.
  apply not_elem_of_cons in Hl as [Hne Hl].
  destruct (String.eqb_spec c label); [congruence|]. simpl. now rewrite IH.
Qed.

(** X13. When the frame built from the collected rows has no column
    [index], the clean-up succeeds and changes nothing but the index: the
    columns and the name of the geometry column are those of that frame,
    and each row keeps its entries. *)
Theorem cleanup_without_index (collection : list (Series Ring)) gdf0 :
  GeoDataFrame_of collection = inr gdf0 ->
  "index" ∉ columns gdf0 ->
  exists gdf,
    overlay_finish collection = Ok gdf
    /\ columns gdf = columns gdf0
    /\ _geometry_column_name gdf = _geometry_column_name gdf0
    /\ forall i r0,
         iterrows gdf0 !! i = Some r0 ->
         "index" ∉ labels (snd r0) ->
         iterrows gdf !! i = Some (@VInt Ring (Z.of_nat i), snd r0).
Proof.
  intros Hg Hout. unfold overlay_finish. rewrite Hg. simpl.
  unfold reset_index. rewrite (bool_decide_eq_false_2 _ Hout).
  rewrite (bool_decide_eq_false_2 _ Hout). cbn [bind].
  unfold DataFrame_drop. cbn [columns iterrows _geometry_column_name].
  rewrite bool_decide_eq_true_2 by now left.
  eexists. split; [reflexivity|]. simpl. split; [|split; [reflexivity|]].
  - now rewrite filter_strings_absent.
  - intros i r0 Hr0 Hl. rewrite (cleaned_row_at _ _ _ _ Hr0). simpl.
    now rewrite filter_absent.
Qed.

(** X14. When the frame built from the collected rows has a column
    [index], the clean-up removes it and leaves the old index behind in a
    new first column [level_0]; when a column [level_0] is there as well,
    the clean-up fails with a [ValueError] and [overlay] returns
    nothing. *)
Theorem cleanup_with_index (collection : list (Series Ring)) gdf0 :
  GeoDataFrame_of collection = inr gdf0 ->
  "index" ∈ columns gdf0 ->
  ("level_0" ∈ columns gdf0 ->
   overlay_finish collection
   = Raise (ValueError "cannot insert level_0, already exists"))
  /\ ("level_0" ∉ columns gdf0 ->
      exists gdf,
        overlay_finish collection = Ok gdf
        /\ columns gdf
           = "level_0" :: List.filter (fun c => negb (String.eqb c "index")) (columns gdf0)
        /\ forall i r0,
             iterrows gdf0 !! i = Some r0 ->
             iterrows gdf !! i
             = Some (@VInt Ring (Z.of_nat i),
                     ("level_0", fst r0)
                       :: List.filter (fun kv => negb (String.eqb (fst kv) "index"))
                                      (snd r0))).
Proof.
  intros Hg Hin. unfold overlay_finish. rewrite Hg. simpl.
  unfold reset_index. rewrite (bool_decide_eq_true_2 _ Hin). split.
  - intros Hl. now rewrite (bool_decide_eq_true_2 _ Hl).
  - intros Hl. rewrite (bool_decide_eq_false_2 _ Hl). simpl.
    unfold DataFrame_drop. simpl.
    rewrite bool_decide_eq_true_2 by now right.
    eexists. split; [reflexivity|]. simpl. split; [reflexivity|].
    intros i r0 Hr0. now rewrite (cleaned_row_at _ _ _ _ Hr0).
Qed.

(** ** The null record *)

Lemma fromkeys_distinct cols seen :
  NoDup (labels (fromkeys (R := Ring) cols seen)).
Proof.
  revert seen. induction cols as [|c cols IH]; intros seen; simpl.
  - constructor.
  - case_bool_decide as Hc; [apply IH|]. simpl. constructor; [|apply IH].
    rewrite fromkeys_labels. intros [_ Hn]. apply Hn. now left.
Qed.

Lemma fromkeys_values cols seen kv :
  kv ∈ fromkeys (R := Ring) cols seen -> snd kv = VNone.
Proof.
  revert seen. induction cols as [|c cols IH]; intros seen; simpl.
  - intros H. inversion H.
  - case_bool_decide as Hc; [apply IH|].
    intros H. apply elem_of_cons in H as [->|H]; [reflexivity|eapply IH, H].
Qed.

Lemma fromkeys_length cols seen :
  length (fromkeys (R := Ring) cols seen) <= length cols.
Proof.
  revert seen. induction cols as [|c cols IH]; intros seen; simpl; [lia|].
  case_bool_decide; simpl.
  - specialize (IH seen). lia.
  - specialize (IH (c :: seen)). lia.
Qed.

(** X15. The record of a layer that was not hit has one entry for each
    distinct column name of the layer, also when the layer repeats a column
    name, and every entry is [None]. *)
Theorem null_record_entries df :
  NoDup (labels (gather df None))
  /\ (forall c, c ∈ labels (gather df None) <-> c ∈ columns df)
  /\ (forall kv, kv ∈ gather df None -> snd kv = VNone)
  /\ length (gather df None) <= length (columns df).
Proof.
  simpl. split; [apply fromkeys_distinct|]. split; [|split].
  - intros c. rewrite fromkeys_labels. set_solver.
  - apply fromkeys_values.
  - apply fromkeys_length.
Qed.

(** ** The collection as a whole *)

Lemma overlay_loop_app df1 df2 how (fs1 fs2 : list (polygon Ring)) collection :
  overlay_loop df1 df2 how (fs1 ++ fs2) collection
  = (c <- overlay_loop df1 df2 how fs1 collection ;; overlay_loop df1 df2 how fs2 c).
Proof.
  revert collection. induction fs1 as [|f fs1 IH]; intros collection; simpl.
  - reflexivity.
  - destruct (overlay_face df1 df2 how f) as [r|e]; simpl; [|reflexivity]. apply IH.
Qed.

Lemma overlay_loop_acc df1 df2 how (fs : list (polygon Ring)) collection :
  overlay_loop df1 df2 how fs collection
  = (c <- overlay_loop df1 df2 how fs [] ;; Ok (collection ++ c)).
Proof.
  revert collection. induction fs as [|f fs IH]; intros collection; simpl.
  - now rewrite app_nil_r.
  - destruct (overlay_face df1 df2 how f) as [[row|]|e]; simpl; [| |reflexivity].
    + rewrite (IH (collection ++ [row])), (IH [row]).
      destruct (overlay_loop df1 df2 how fs []) as [c|e]; simpl; [|reflexivity].
      now rewrite <- app_assoc.
    + apply IH.
Qed.

(** X16. The faces are classified one by one: the collection for a
    sequence of faces followed by another is the collection for the first
    followed by the collection for the second, and an error on a face of
    the first part comes before any error of the second. *)
Theorem overlay_loop_append df1 df2 how (fs1 fs2 : list (polygon Ring)) :
  overlay_loop df1 df2 how (fs1 ++ fs2) []
  = (c1 <- overlay_loop df1 df2 how fs1 [] ;;
     c2 <- overlay_loop df1 df2 how fs2 [] ;;
     Ok (c1 ++ c2)).
Proof.
  rewrite overlay_loop_app.
  destruct (overlay_loop df1 df2 how fs1 []) as [c1|e]; simpl; [|reflexivity].
  apply overlay_loop_acc.
Qed.

Lemma filter_split_length {A : Type} (f g h : A -> bool) (l : list A) :
  (forall x, f x = g x || h x) ->
  (forall x, g x && h x = false) ->
  length (List.filter f l) = length (List.filter g l) + length (List.filter h l).
Proof.
  intros Hf Hd. induction l as [|x l IH]; [reflexivity|]. simpl.
  rewrite (Hf x). specialize (Hd x).
  destruct (g x), (h x); simpl in *; try discriminate; lia.
Qed.

Lemma overlay_loop_length df1 df2 how (fs : list (polygon Ring)) :
  feature_collection df1 = true ->
  feature_collection df2 = true ->
  exists collection,
    overlay_loop df1 df2 how fs [] = Ok collection
    /\ length collection = length (List.filter (emitted df1 df2 how) fs).
Proof.
  intros Hfc1 Hfc2.
  destruct (overlay_loop_rows df1 df2 how fs [] Hfc1 Hfc2) as (rows & Hl & Hr).
  exists rows. split; [exact Hl|]. symmetry. exact (Forall2_length _ _ _ Hr).
Qed.

(** X17. On the same faces, the five relations never fail and their
    collections have these sizes: [identity] has the rows of
    [intersection] and of [difference] together, [union] those of
    [identity] and of the [difference] of the layers exchanged, and no
    collection has more rows than there are faces. *)
Theorem collection_sizes df1 df2 (fs : list (polygon Ring)) :
  feature_collection df1 = true ->
  feature_collection df2 = true ->
  exists inter ident diff uni back,
    overlay_loop df1 df2 "intersection" fs [] = Ok inter
    /\ overlay_loop df1 df2 "identity" fs [] = Ok ident
    /\ overlay_loop df1 df2 "difference" fs [] = Ok diff
    /\ overlay_loop df1 df2 "union" fs [] = Ok uni
    /\ overlay_loop df2 df1 "difference" fs [] = Ok back
    /\ length ident = length inter + length diff
    /\ length uni = length ident + length back
    /\ length uni <= length fs.
Proof.
  intros Hfc1 Hfc2.
  destruct (overlay_loop_length df1 df2 "intersection" fs Hfc1 Hfc2) as (inter & Hi & Li).
  destruct (overlay_loop_length df1 df2 "identity" fs Hfc1 Hfc2) as (ident & Hd & Ld).
  destruct (overlay_loop_length df1 df2 "difference" fs Hfc1 Hfc2) as (diff & Hf & Lf).
  destruct (overlay_loop_length df1 df2 "union" fs Hfc1 Hfc2) as (uni & Hu & Lu).
  destruct (overlay_loop_length df2 df1 "difference" fs Hfc2 Hfc1) as (back & Hb & Lb).
  exists inter, ident, diff, uni, back. repeat (split; [assumption|]).
  rewrite Li, Ld, Lf, Lu, Lb. split; [|split].
  - apply filter_split_length; intros f; rewrite !emitted_hit by assumption;
      now destruct (layer_hit df1 f), (layer_hit df2 f).
  - apply filter_split_length; intros f; rewrite !emitted_hit by assumption;
      now destruct (layer_hit df1 f), (layer_hit df2 f).
  - apply List.filter_length_le.
Qed.

End Proofs.

(** * The theorems at work on the small instance *)

Section Runs.
Import Tiles.

Ltac run := vm_compute; reflexivity.

Ltac decide_run :=
  lazymatch goal with
  | |- ~ ?P => apply (bool_decide_eq_false_1 P); run
  | |- ?P => apply (bool_decide_eq_true_1 P); run
  end.

(** The five relations on the three faces of [parcels] and [zones]: face 2
    lies in the parcel only, face 6 in both, face 3 in the zone only. *)
Example relations_on_tiles :
  map (fun how => map (emitted (K := tiles) parcels zones how) [face2; face6; face3])
      allowed_hows
  = [[false; true; false];    (* intersection *)
     [true; true; true];      (* union *)
     [true; true; false];     (* identity *)
     [true; false; true];     (* symmetric_difference *)
     [true; false; false]].   (* difference *)
Proof. run. Qed.

(** With an empty second layer, [identity] returns the faces of the first
    with the attributes of the second set to [None]. *)
Example identity_with_empty_layer :
  overlay (K := tiles) parcels nothing "identity"
  = Ok {| columns := ["name"; "zone"; "geometry"];
          iterrows :=
            [(VInt 0, [("name", VStr "a"); ("zone", VNone);
                       ("geometry", VGeom (Polygon face2))]);
             (VInt 1, [("name", VStr "a"); ("zone", VNone);
                       ("geometry", VGeom (Polygon face6))])];
          _geometry_column_name := "geometry" |}.
Proof. run. Qed.

(** Both unions fail: the error of the pairwise union is the one raised. *)
Example both_unions_fail :
  overlay (K := tiles) ruins zones "union"
  = Raise (KernelError "TopologyException (pairwise)").
Proof. run. Qed.

(** A relation that is not recognized, on a layer that could not be
    extracted either. *)
Example unknown_relation_first :
  overlay (K := tiles) sites sites "clip" = Raise (ValueError (how_msg "clip")).
Proof. run. Qed.

Lemma allowed_union : "union" ∈ allowed_hows.
Proof. decide_run. Defined.

Lemma allowed_identity : "identity" ∈ allowed_hows.
Proof. decide_run. Defined.

Lemma overlay_inclusion_witness :
  feature_collection (K := tiles) parcels = true
  /\ feature_collection (K := tiles) zones = true
  /\ (emitted (K := tiles) parcels zones "difference" face6 = true
      <-> decision_table "difference" (layer_hit (K := tiles) parcels face6)
                         (layer_hit (K := tiles) zones face6)).
Proof.
  split; [run|]. split; [run|].
  exact (proj1 (proj2 (overlay_inclusion (K := tiles) parcels zones "difference" face6
                         eq_refl eq_refl))).
Defined.

Lemma first_match_and_null_record_witness :
  feature_collection (K := tiles) parcels = true
  /\ feature_collection (K := tiles) zones = true
  /\ layer_hit (K := tiles) parcels face3 = false
  /\ exists row,
       overlay_face (K := tiles) parcels zones "union" face3 = Ok (Some row)
       /\ head (Series_get row "name") = Some VNone.
Proof.
  split; [run|]. split; [run|]. split; [run|].
  eexists. split; [run|].
  refine (proj1 (proj1 (proj2 (first_match_and_null_record (K := tiles)
                                 parcels zones "union" face3 eq_refl eq_refl)
                          _ eq_refl) eq_refl "name" _ _ _ _)).
  - decide_run.
  - discriminate.
  - discriminate.
  - discriminate.
Defined.

Lemma invalid_relation_witness :
  ("clip" ∉ allowed_hows)
  /\ overlay (K := tiles) parcels sites "clip" = Raise (ValueError (how_msg "clip"))
  /\ overlay (K := tiles) parcels zones "union" <> Raise (ValueError (how_msg "union")).
Proof.
  assert (Hclip : "clip" ∉ allowed_hows) by decide_run.
  split; [exact Hclip|]. split.
  - exact (proj1 (invalid_relation (K := tiles) parcels sites "clip") Hclip).
  - exact (proj2 (invalid_relation (K := tiles) parcels zones "union")
             allowed_union "union").
Defined.



Lemma union_fallback_witness :
  _extract_rings (K := tiles) lots = Ok [7]
  /\ _extract_rings (K := tiles) zones = Ok [3]
  /\ unary_union (Collaborators := tiles) [[7]; [3]] = inl "TopologyException"
  /\ overlay (K := tiles) lots zones "identity"
     = overlay_faces (K := tiles) lots zones "identity" [7; 3].
Proof.
  split; [run|]. split; [run|]. split; [run|].
  exact (proj1 (proj2 (proj1 (union_fallback (K := tiles) lots zones "identity" [7] [3]
                                allowed_identity eq_refl eq_refl)
                         "TopologyException" eq_refl))
           [7; 3] eq_refl).
Defined.

Lemma extract_rings_multipart_repair_witness :
  iterrows knots
  = iterrows single ++ (VInt 1, [("geometry", VGeom (Polygon (mkPolygon 204 [8])))]) :: []
  /\ _extract_rings (K := tiles) single = Ok [2]
  /\ is_valid (Collaborators := tiles) (mkPolygon 204 [8]) = false
  /\ buffer0 (Collaborators := tiles) (mkPolygon 204 [8])
     = MultiPolygon [mkPolygon 4 [8]; mkPolygon 1 []]
  /\ _extract_rings (K := tiles) knots = Raise (AttributeError "exterior")
  /\ polygon_rings (K := tiles) (mkPolygon 204 [8]) = [4; 8; 1].
Proof.
  split; [reflexivity|]. split; [run|]. split; [run|]. split; [run|].
  exact (extract_rings_multipart_repair (K := tiles) knots single (VInt 1)
           [("geometry", VGeom (Polygon (mkPolygon 204 [8])))] [] [2]
           (Polygon (mkPolygon 204 [8])) [] (mkPolygon 204 [8]) []
           [mkPolygon 4 [8]; mkPolygon 1 []]
           eq_refl eq_refl eq_refl eq_refl eq_refl eq_refl eq_refl eq_refl).
Defined.

Lemma extract_rings_sequence_witness :
  feature_collection (K := tiles) patches = true
  /\ polygonal_collection (K := tiles) patches = true
  /\ repairable_collection (K := tiles) patches = true
  /\ _extract_rings (K := tiles) patches = Ok [4; 8; 5; 10; 12; 14].
Proof.
  split; [run|]. split; [run|]. split; [run|].
  exact (proj1 (extract_rings_sequence (K := tiles) patches eq_refl eq_refl eq_refl)).
Defined.

Lemma symmetric_difference_complement_witness :
  feature_collection (K := tiles) parcels = true
  /\ feature_collection (K := tiles) zones = true
  /\ List.filter (emitted (K := tiles) parcels zones "symmetric_difference")
       [face2; face6; face3]
     = List.filter (fun f => negb (emitted (K := tiles) parcels zones "intersection" f))
         [face2; face6; face3].
Proof.
  split; [run|]. split; [run|].
  exact (proj1 (proj2 (symmetric_difference_complement (K := tiles) parcels zones
                         [face2; face6; face3] eq_refl eq_refl))).
Defined.

Lemma geometry_columns_dropped_witness :
  exists dropped1 row,
    Series_drop "geometry"
      (concat [("name", VStr "a"); ("geometry", VGeom (Polygon (mkPolygon 2 [6])))]
              [("index", VInt 5); ("geometry", VGeom (Polygon (mkPolygon 3 [])))])
    = Ok dropped1
    /\ Series_drop "geometry" dropped1 = Raise (ValueError drop_msg)
    /\ out_row (K := tiles) "geometry" "geometry"
         [("name", VStr "a"); ("geometry", VGeom (Polygon (mkPolygon 2 [6])))]
         [("index", VInt 5); ("geometry", VGeom (Polygon (mkPolygon 3 [])))] face6
       = Ok row
    /\ row = [("name", VStr "a"); ("index", VInt 5); ("geometry", VGeom (Polygon face6))].
Proof.
  destruct (proj1 (geometry_columns_dropped (K := tiles) "geometry" "geometry"
                     [("name", VStr "a"); ("geometry", VGeom (Polygon (mkPolygon 2 [6])))]
                     [("index", VInt 5); ("geometry", VGeom (Polygon (mkPolygon 3 [])))]
                     face6))
    as (dropped1 & row & H1 & Hsame & Habsent & Hrow & Heq & _).
  - decide_run.
  - exists dropped1, row. split; [exact H1|]. split; [exact (Habsent (Hsame eq_refl))|].
    split; [exact Hrow|]. rewrite Heq. run.
Defined.

Lemma extraction_repeatable_witness :
  fst (_extract_rings_st (K := tiles) [1; 2]%positive patch_store)
  = Ok [4; 8; 5; 10; 12; 14]
  /\ snd (_extract_rings_st (K := tiles) [1; 2]%positive patch_store) !! 1%positive
     = Some (Polygon (mkPolygon 104 [8]))
  /\ fst (_extract_rings_st (K := tiles) [1; 2]%positive
            (snd (_extract_rings_st (K := tiles) [1; 2]%positive patch_store)))
     = fst (_extract_rings_st (K := tiles) [1; 2]%positive patch_store).
Proof.
  assert (Hlive : forall l, l ∈ [1; 2]%positive ->
                            is_Some (patch_store !! l)).
  { intros l Hl. apply elem_of_cons in Hl as [->|Hl]; [eexists; run|].
    apply elem_of_cons in Hl as [->|Hl]; [eexists; run|]. inversion Hl. }
  split; [run|].
  destruct (extraction_repeatable (K := tiles) [1; 2]%positive patch_store Hlive)
    as (Hkept & Hagain & _).
  split; [apply Hkept; run|exact Hagain].
Defined.

Lemma index_column_lost_witness :
  overlay (K := tiles) parcels zones "union" = Ok union_output
  /\ "index" ∈ attribute_columns (K := tiles) zones
  /\ columns union_output <> announced_schema (K := tiles) parcels zones.
Proof.
  assert (Hrun : overlay (K := tiles) parcels zones "union" = Ok union_output) by run.
  assert (Hattr : "index" ∈ attribute_columns (K := tiles) zones)
    by decide_run.
  split; [exact Hrun|]. split; [exact Hattr|].
  exact (proj2 (proj2 (proj2 (proj2 (index_column_lost (K := tiles) parcels zones "union"
                                       union_output Hrun)))
                  (or_intror Hattr))).
Defined.

(** ** The further properties on the small instance *)

Lemma extract_rings_append_witness :
  iterrows patches_then_zones = iterrows patches ++ iterrows zones
  /\ _extract_rings (K := tiles) patches_then_zones = Ok ([4; 8; 5; 10; 12; 14] ++ [3]).
Proof.
  split; [reflexivity|].
  exact (extract_rings_append (K := tiles) patches_then_zones patches zones eq_refl).
Defined.

Lemma extract_rings_geometry_cells_witness :
  map (fun r => Series_get (snd r) "geometry") (iterrows surveyed)
  = map (fun r => Series_get (snd r) "geometry") (iterrows parcels)
  /\ _extract_rings (K := tiles) surveyed = _extract_rings (K := tiles) parcels.
Proof.
  split; [run|].
  exact (extract_rings_geometry_cells (K := tiles) surveyed parcels eq_refl).
Defined.

Lemma first_offending_feature_witness :
  _extract_rings (K := tiles) single = Ok [2]
  /\ _extract_rings (K := tiles) nothing = Ok []
  /\ _extract_rings (K := tiles) mixed = Raise (TypeError poly_msg)
  /\ _extract_rings (K := tiles) unlabelled = Raise (AttributeError "geometry").
Proof.
  split; [run|]. split; [run|]. split.
  - exact (proj1 (first_offending_feature (K := tiles) mixed single (VInt 1)
                    [("geometry", VGeom (OtherGeometry Point))]
                    [(VInt 2, [("name", VStr "c")])] [2] eq_refl eq_refl)
                 (OtherGeometry Point) eq_refl eq_refl).
  - refine (proj2 (proj2 (first_offending_feature (K := tiles) unlabelled nothing
                            (VInt 0) [("geom", VGeom (Polygon (mkPolygon 2 [])))]
                            [] [] eq_refl eq_refl)) _).
    decide_run.
Defined.

Lemma overlay_exceptions_witness :
  overlay (K := tiles) parcels sites "union" = Raise (TypeError poly_msg)
  /\ forall key, TypeError poly_msg <> KeyError key.
Proof.
  assert (Hrun : overlay (K := tiles) parcels sites "union" = Raise (TypeError poly_msg))
    by run.
  split; [exact Hrun|].
  exact (proj2 (overlay_exceptions (K := tiles) parcels sites "union" _ Hrun)).
Defined.

Lemma overlay_after_extraction_witness :
  feature_collection (K := tiles) lots = true
  /\ feature_collection (K := tiles) zones = true
  /\ _extract_rings (K := tiles) lots = Ok [7]
  /\ _extract_rings (K := tiles) zones = Ok [3]
  /\ ((exists d1 d2,
         unary_union (Collaborators := tiles) [[7]; [3]] = inl d1
         /\ binary_union (Collaborators := tiles) [7] [3] = inl d2
         /\ overlay (K := tiles) lots zones "identity" = Raise (KernelError d2))
      \/ (exists mm collection,
            overlay_union (K := tiles) [7] [3] = Ok mm
            /\ overlay_loop (K := tiles) lots zones "identity" (polygonize mm) []
               = Ok collection
            /\ Forall2 (fun f row =>
                          overlay_face (K := tiles) lots zones "identity" f = Ok (Some row))
                       (List.filter (emitted (K := tiles) lots zones "identity")
                                    (polygonize mm)) collection
            /\ ((exists d, GeoDataFrame_of collection = inl d
                           /\ overlay (K := tiles) lots zones "identity"
                              = Raise (KernelError d))
                \/ (exists gdf0,
                      GeoDataFrame_of collection = inr gdf0
                      /\ "index" ∈ columns gdf0 /\ "level_0" ∈ columns gdf0
                      /\ overlay (K := tiles) lots zones "identity"
                         = Raise (ValueError "cannot insert level_0, already exists"))
                \/ (exists gdf0 gdf,
                      GeoDataFrame_of collection = inr gdf0
                      /\ ~ ("index" ∈ columns gdf0 /\ "level_0" ∈ columns gdf0)
                      /\ overlay (K := tiles) lots zones "identity" = Ok gdf)))).
Proof.
  split; [run|]. split; [run|]. split; [run|]. split; [run|].
  exact (overlay_after_extraction (K := tiles) lots zones "identity" [7] [3]
           eq_refl eq_refl allowed_identity eq_refl eq_refl).
Defined.

Lemma relations_within_union_witness :
  layer_hit (K := tiles) parcels face5 = false
  /\ layer_hit (K := tiles) zones face5 = false
  /\ emitted (K := tiles) parcels zones "symmetric_difference" face5 = true
  /\ emitted (K := tiles) parcels zones "union" face5 = false.
Proof.
  split; [run|]. split; [run|].
  exact (proj2 (proj2 (proj2 (proj2 (proj2 (proj2
           (relations_within_union (K := tiles) parcels zones face5 eq_refl eq_refl))))))
           (conj eq_refl eq_refl)).
Defined.

Lemma relations_decompose_witness :
  emitted (K := tiles) parcels zones "union" face3
  = emitted (K := tiles) parcels zones "intersection" face3
    || emitted (K := tiles) parcels zones "difference" face3
    || emitted (K := tiles) zones parcels "difference" face3.
Proof.
  exact (proj1 (proj2 (proj2 (relations_decompose (K := tiles) parcels zones face3
                                eq_refl eq_refl)))).
Defined.

Lemma empty_layer_witness :
  iterrows nothing = []
  /\ overlay_loop (K := tiles) parcels nothing "intersection" [face2; face6; face3] []
     = Ok []
  /\ emitted (K := tiles) parcels nothing "identity" face2
     = layer_hit (K := tiles) parcels face2.
Proof.
  split; [reflexivity|].
  destruct (proj1 (empty_layer (K := tiles) parcels nothing [face2; face6; face3]
                     eq_refl eq_refl) eq_refl) as [Hfaces Hloop].
  split; [exact Hloop|exact (proj1 (Hfaces face2))].
Defined.

Lemma output_row_geometry_witness :
  overlay_face (K := tiles) parcels zones "union" face3
  = Ok (Some [("name", VNone); ("index", VInt 5); ("geometry", VGeom (Polygon face3))])
  /\ Series_get [("name", VNone); ("index", VInt 5); ("geometry", VGeom (Polygon face3))]
       "geometry"
     = [VGeom (Polygon face3)].
Proof.
  split; [run|].
  exact (proj1 (proj2 (proj2 (output_row_geometry (K := tiles) parcels zones "union" face3
                                _ eq_refl eq_refl eq_refl))
                  (or_introl eq_refl))).
Defined.

Lemma output_row_schema_witness :
  overlay_face (K := tiles) parcels zones "union" face3
  = Ok (Some [("name", VNone); ("index", VInt 5); ("geometry", VGeom (Polygon face3))])
  /\ ("index" ∈ labels [("name", @VNone nat); ("index", VInt 5);
                        ("geometry", VGeom (Polygon face3))]
      <-> "index" ∈ announced_schema (K := tiles) parcels zones).
Proof.
  split; [run|].
  exact (proj2 (proj2 (output_row_schema (K := tiles) parcels zones "union" face3
                         _ eq_refl eq_refl eq_refl))
           eq_refl "index").
Defined.

Lemma hit_attributes_carried_witness :
  overlay_face (K := tiles) parcels zones "union" face6
  = Ok (Some [("name", VStr "a"); ("index", VInt 5); ("geometry", VGeom (Polygon face6))])
  /\ Series_get [("name", @VStr nat "a"); ("index", VInt 5);
                 ("geometry", VGeom (Polygon face6))] "name"
     = Series_get [("name", @VStr nat "a");
                   ("geometry", VGeom (Polygon (mkPolygon 2 [6])))] "name".
Proof.
  split; [run|].
  refine (proj2 (proj1 (hit_attributes_carried (K := tiles) parcels zones "union" face6
                          _ eq_refl eq_refl eq_refl)
                   [] (VInt 0, [("name", VStr "a");
                                ("geometry", VGeom (Polygon (mkPolygon 2 [6])))])
                   [] "name" eq_refl _ eq_refl _ _ _ _) _).
  - intros r Hr. inversion Hr.
  - decide_run.
  - discriminate.
  - discriminate.
  - discriminate.
  - decide_run.
Defined.

Lemma output_index_sequential_witness :
  overlay (K := tiles) parcels zones "union" = Ok union_output
  /\ forall i r, iterrows union_output !! i = Some r -> fst r = VInt (Z.of_nat i).
Proof.
  assert (Hrun : overlay (K := tiles) parcels zones "union" = Ok union_output) by run.
  split; [exact Hrun|].
  exact (proj1 (output_index_sequential (K := tiles) parcels zones "union" union_output
                  Hrun)).
Defined.

Lemma cleanup_without_index_witness :
  GeoDataFrame_of (Collaborators := tiles) plain_rows = inr plain_frame
  /\ ("index" ∉ columns plain_frame)
  /\ exists gdf,
       overlay_finish (K := tiles) plain_rows = Ok gdf
       /\ columns gdf = columns plain_frame.
Proof.
  assert (Hout : "index" ∉ columns plain_frame) by decide_run.
  split; [reflexivity|]. split; [exact Hout|].
  destruct (cleanup_without_index (K := tiles) plain_rows plain_frame eq_refl Hout)
    as (gdf & Hf & Hc & _).
  exists gdf. split; [exact Hf|exact Hc].
Defined.

Lemma cleanup_with_index_witness :
  GeoDataFrame_of (Collaborators := tiles) indexed_rows = inr indexed_frame
  /\ "index" ∈ columns indexed_frame
  /\ exists gdf,
       overlay_finish (K := tiles) indexed_rows = Ok gdf
       /\ columns gdf = ["level_0"; "geometry"].
Proof.
  assert (Hin : "index" ∈ columns indexed_frame) by decide_run.
  assert (Hl : "level_0" ∉ columns indexed_frame) by decide_run.
  split; [reflexivity|]. split; [exact Hin|].
  destruct (proj2 (cleanup_with_index (K := tiles) indexed_rows indexed_frame eq_refl Hin)
              Hl) as (gdf & Hf & Hc & _).
  exists gdf. split; [exact Hf|exact Hc].
Defined.

Lemma null_record_entries_witness :
  gather (K := tiles) repeated None = [("a", VNone); ("geometry", VNone)]
  /\ NoDup (labels (gather (K := tiles) repeated None))
  /\ length (gather (K := tiles) repeated None) <= length (columns repeated).
Proof.
  split; [reflexivity|].
  split; [exact (proj1 (null_record_entries (K := tiles) repeated))|].
  exact (proj2 (proj2 (proj2 (null_record_entries (K := tiles) repeated)))).
Defined.

Lemma overlay_loop_append_witness :
  overlay_loop (K := tiles) parcels zones "union" ([face2; face6] ++ [face3]) []
  = (c1 <- overlay_loop (K := tiles) parcels zones "union" [face2; face6] [] ;;
     c2 <- overlay_loop (K := tiles) parcels zones "union" [face3] [] ;;
     Ok (c1 ++ c2)).
Proof.
  exact (overlay_loop_append (K := tiles) parcels zones "union" [face2; face6] [face3]).
Defined.

Lemma collection_sizes_witness :
  feature_collection (K := tiles) parcels = true
  /\ feature_collection (K := tiles) zones = true
  /\ exists inter ident diff uni back,
       overlay_loop (K := tiles) parcels zones "intersection" [face2; face6; face3] []
       = Ok inter
       /\ overlay_loop (K := tiles) parcels zones "identity" [face2; face6; face3] []
          = Ok ident
       /\ overlay_loop (K := tiles) parcels zones "difference" [face2; face6; face3] []
          = Ok diff
       /\ overlay_loop (K := tiles) parcels zones "union" [face2; face6; face3] []
          = Ok uni
       /\ overlay_loop (K := tiles) zones parcels "difference" [face2; face6; face3] []
          = Ok back
       /\ length ident = length inter + length diff
       /\ length uni = length ident + length back
       /\ length uni <= 3.
Proof.
  split; [run|]. split; [run|].
  exact (collection_sizes (K := tiles) parcels zones [face2; face6; face3]
           eq_refl eq_refl).
Defined.

End Runs.
